(** * Run tracker: geo math, position filter and run state machine

    A shallow embedding of [src/geo.ts], [src/map.ts] / [src/map.js],
    [src/storage.ts] / [src/storage.js], [src/run-tracker.ts] /
    [src/run-tracker.js], [formatDuration] of [src/units.ts] /
    [src/units.js] and [handlePlayPause] of [src/main.ts] / [src/main.js].

    Conventions of the embedding.
    - JavaScript numbers that carry coordinates, accuracies and distances are
      real numbers ([R]) in the tracker and in [Geo].  What is stated of them
      is stated so that it is also true of the doubles the code computes
      with: an equation between two runs of the same arithmetic, or the
      outcome of a comparison that the code itself makes.  Where rounding
      and NaN decide, [GeoDouble] has the geo math in IEEE doubles, with the
      host's [Math.sin], [Math.cos] and [Math.atan2] as parameters.
    - Clock readings ([Date.now()]) and durations are integers ([Z],
      milliseconds); every reading is an explicit argument of the operation
      that takes it.
    - The module-level variables of the tracker, of the map module, of the
      browser's geolocation service and of the storage module are the fields
      of explicit records that every operation takes and returns.
    - A call that throws ends the function that made it: [saveRun] that
      throws ends [finishRun] before its reset, and [addCoordinate] of
      [map.js] without a map ends [handlePositionUpdate] before the route
      grows.
    - Optional observer callbacks are a flag (registered or not) and a log of
      the calls made to them. *)

From Stdlib Require Import Reals Lra Lia ZArith Ascii String DecimalString DecimalZ Bool Arith List.
From Stdlib Require Floats.
Import ListNotations.

(** ** Geo math ([src/geo.ts]) *)

Module Geo.
Local Open Scope R_scope.

(** [Coordinate = [number, number]], longitude first. *)
Definition Coordinate : Type := (R * R)%type.

Definition lng (c : Coordinate) : R := fst c.
Definition lat (c : Coordinate) : R := snd c.

(** [Math.atan2(y, x)] on finite arguments, by the quadrant of [(x, y)]. *)
Definition atan2 (y x : R) : R :=
  if Rlt_dec 0 x then atan (y / x)
  else if Rlt_dec x 0 then
    if Rle_dec 0 y then atan (y / x) + PI else atan (y / x) - PI
  else if Rlt_dec 0 y then PI / 2
  else if Rlt_dec y 0 then - (PI / 2)
  else 0.

Definition toRadians (degrees : R) : R := degrees * (PI / 180).

(** The quantity [a] of [haversineDistance]. *)
Definition haversineA (coord1 coord2 : Coordinate) : R :=
  let lat1 := toRadians (lat coord1) in
  let lat2 := toRadians (lat coord2) in
  let deltaLat := toRadians (lat coord2 - lat coord1) in
  let deltaLng := toRadians (lng coord2 - lng coord1) in
  sin (deltaLat / 2) * sin (deltaLat / 2) +
  cos lat1 * cos lat2 * sin (deltaLng / 2) * sin (deltaLng / 2).

Definition haversineDistance (coord1 coord2 : Coordinate) : R :=
  let R := 6371000 in
  let a := haversineA coord1 coord2 in
  let c := 2 * atan2 (sqrt a) (sqrt (1 - a)) in
  R * c.

(** [coordinates[i]] for an index in range. *)
Definition at_index (coordinates : list Coordinate) (i : nat) : Coordinate :=
  nth i coordinates (0, 0).

(** The summand of the loop of [calculateTotalDistance] at index [i]. *)
Definition leg (coordinates : list Coordinate) (i : nat) : R :=
  haversineDistance (at_index coordinates (i - 1)) (at_index coordinates i).

(** [calculateTotalDistance]: in the [for] loop [i] runs from 1 to
    [length - 1] and [totalDistance] starts at 0. *)
Definition calculateTotalDistance (coordinates : list Coordinate) : R :=
  if (length coordinates <? 2)%nat then 0
  else
    fold_left (fun totalDistance i => totalDistance + leg coordinates i)
              (seq 1 (length coordinates - 1)) 0.

End Geo.

(** ** Geo math in double precision ([src/geo.ts])

    The same text with JavaScript's numbers as IEEE 754 doubles.  The
    arithmetic, [Math.sqrt] and the comparisons are those of the standard.
    [Math.sin], [Math.cos] and [Math.atan2] are the host's: ECMAScript
    leaves their precision to the implementation, so they are parameters. *)

Module GeoDouble.
Import Floats.
Local Open Scope float_scope.

(** The host's [Math.sin], [Math.cos] and [Math.atan2]. *)
Record Math : Type := mkMath {
  sin : float -> float;
  cos : float -> float;
  atan2 : float -> float -> float
}.

(** [Coordinate = [number, number]], longitude first. *)
Definition Coordinate : Type := (float * float)%type.

(** [Math.PI], 3.141592653589793. *)
Definition PI : float := 0x1.921fb54442d18p+1.

Definition toRadians (degrees : float) : float := degrees * (PI / 180).

Definition haversineDistance (M : Math) (coord1 coord2 : Coordinate) : float :=
  let R := 6371000 in
  let lat1 := toRadians (snd coord1) in
  let lat2 := toRadians (snd coord2) in
  let deltaLat := toRadians (snd coord2 - snd coord1) in
  let deltaLng := toRadians (fst coord2 - fst coord1) in
  let a :=
    sin M (deltaLat / 2) * sin M (deltaLat / 2) +
    cos M lat1 * cos M lat2 * sin M (deltaLng / 2) * sin M (deltaLng / 2) in
  let c := 2 * atan2 M (sqrt a) (sqrt (1 - a)) in
  R * c.

Definition calculateTotalDistance (M : Math) (coordinates : list Coordinate) : float :=
  if (length coordinates <? 2)%nat then 0
  else
    fold_left
      (fun totalDistance i =>
         totalDistance +
         haversineDistance M (nth (i - 1) coordinates (0, 0)) (nth i coordinates (0, 0)))
      (seq 1 (length coordinates - 1)) 0.

(** A host that is known at the few arguments that the distance from
    latitude 2.5, longitude 0 to its antipode asks for: there sine and
    cosine have their correctly rounded values, and [Math.atan2] of NaN is
    NaN, as ECMAScript requires. *)
Definition known_at_antipode (M : Math) : Prop :=
  (* Math.sin(-0.04363323129985824) = -0.043619387365336 *)
  sin M (-0x1.657184ae74487p-5) = -0x1.65547c4694e11p-5 /\
  (* Math.cos(0.04363323129985824) = 0.9990482215818578, and of its opposite *)
  cos M 0x1.657184ae74487p-5 = 0x1.ff833f9da45f7p-1 /\
  cos M (-0x1.657184ae74487p-5) = 0x1.ff833f9da45f7p-1 /\
  (* Math.sin(1.5707963267948966) = 1 *)
  sin M 0x1.921fb54442d18p+0 = 1 /\
  (forall y, atan2 M y nan = nan).

(** A table with these values, and NaN everywhere else. *)
Definition table_at_antipode : Math :=
  mkMath
    (fun x =>
       if x =? 0x1.921fb54442d18p+0 then 1
       else if x =? -0x1.657184ae74487p-5 then -0x1.65547c4694e11p-5
       else nan)
    (fun x => if abs x =? 0x1.657184ae74487p-5 then 0x1.ff833f9da45f7p-1 else nan)
    (fun _ _ => nan).

End GeoDouble.

(** ** JavaScript values used by the tracker *)

Module Js.

(** [x < y] and [x > y] on numbers. *)
Definition ltb (x y : R) : bool := if Rlt_dec x y then true else false.
Definition gtb (x y : R) : bool := if Rgt_dec x y then true else false.

(** Truthiness of a [number | null]: [null] and [0] are falsy. *)
Definition truthy (x : option Z) : bool :=
  match x with
  | Some n => negb (n =? 0)%Z
  | None => false
  end.

(** Truthiness of a [string | null]: [null] and the empty string are falsy. *)
Definition truthyStr (x : option string) : bool :=
  match x with
  | Some EmptyString => false
  | Some _ => true
  | None => false
  end.

(** A [number | null] used as an operand of [-]: [null] counts as 0. *)
Definition num (x : option Z) : Z :=
  match x with
  | Some n => n
  | None => 0%Z
  end.

(** [x !== null]. *)
Definition notNull {A : Type} (x : option A) : bool :=
  match x with
  | Some _ => true
  | None => false
  end.

End Js.

(** The two live implementations: [run-tracker.ts] with [map.ts], and
    [run-tracker.js] with [map.js].  Where the two files have the same text
    the embedding has one definition; where they differ the definition
    branches on the variant. *)
Inductive Variant : Type := TS | JS.

(** ** Storage ([src/storage.ts]) *)

Module Storage.

(** [Run]; the two instants are kept as clock readings (the source renders
    them with [toISOString]). *)
Record Run : Type := mkRun {
  id : option string;
  startTime : Z;
  endTime : Z;
  duration : Z;
  distance : R;
  coordinates : list Geo.Coordinate
}.

(** [generateId]: [now] is the reading of [Date.now()] and [rnd] the
    base-36 suffix cut from [Math.random()]. *)
Definition generateId (now : Z) (rnd : string) : string :=
  ("run_" ++ NilZero.string_of_int (Z.to_int now) ++ "_" ++ rnd)%string.

End Storage.

(** ** Storage on [localStorage] ([src/storage.ts], [src/storage.js])

    The item under [STORAGE_KEY] is absent, or text that is empty or that
    [JSON.parse] rejects, or the list of runs that this module wrote.
    [setItem] tells what [localStorage.setItem] does with the text of a list
    of runs. *)

Module LocalStore.

Inductive Item : Type :=
| Missing
| Unreadable
| Stored (runs : list Storage.Run).

(** What [localStorage.setItem] does: it stores the text, or it throws a
    [DOMException] named [QuotaExceededError], or it throws something else
    (a [SecurityError] where storage is blocked). *)
Inductive Write : Type :=
| Written
| QuotaExceededError
| OtherError.

(** What a call leaves in storage, and whether it threw. *)
Record Outcome : Type := mkOutcome {
  item : Item;
  threw : bool
}.

(** [getRuns]. *)
Definition getRuns (i : Item) : list Storage.Run :=
  match i with
  | Missing => []
  | Unreadable => []
  | Stored runs => runs
  end.

(** [saveRun]: the [catch] block returns after an error that is not
    [QuotaExceededError]; after [QuotaExceededError] it writes the 50 most
    recent runs, and that second write is not itself guarded. *)
Definition saveRun (setItem : list Storage.Run -> Write) (run : Storage.Run) (i : Item)
  : Outcome :=
  let runs := run :: getRuns i in
  match setItem runs with
  | Written => mkOutcome (Stored runs) false
  | QuotaExceededError =>
      let trimmedRuns := firstn 50 runs in
      match setItem trimmedRuns with
      | Written => mkOutcome (Stored trimmedRuns) false
      | _ => mkOutcome i true
      end
  | OtherError => mkOutcome i false
  end.

(** [run.id === id]. *)
Definition hasId (id : string) (run : Storage.Run) : bool :=
  match Storage.id run with
  | Some s => String.eqb s id
  | None => false
  end.

(** [getRunById]. *)
Definition getRunById (id : string) (i : Item) : option Storage.Run :=
  find (hasId id) (getRuns i).

(** [deleteRun]: the write is not guarded. *)
Definition deleteRun (setItem : list Storage.Run -> Write) (id : string) (i : Item)
  : Outcome :=
  let filtered := filter (fun run => negb (hasId id run)) (getRuns i) in
  match setItem filtered with
  | Written => mkOutcome (Stored filtered) false
  | _ => mkOutcome i true
  end.

End LocalStore.

(** ** Route accumulator ([src/map.ts], [src/map.js])

    Calls into the map renderer (sources, camera, aria labels) and
    [savePosition], which swallows its errors, are display and are not
    modelled, except where a call to the renderer throws. *)

Module MapView.

Record t : Type := mk {
  map : bool;                                  (* [map !== null], and loaded *)
  routeData : list Geo.Coordinate;             (* active route coordinates *)
  historyRouteData : list Geo.Coordinate       (* history route coordinates *)
}.

(** [initMap], awaited as [init] of [main] awaits it: the map is created
    and has loaded, so [routeSource] is set. *)
Definition initMap (m : t) : t := mk true (routeData m) (historyRouteData m).

(** [addCoordinate]: [map.ts] returns at once when there is no map.
    [map.js] has no such test: without a map its route is empty, so it
    makes the two markers, adds them to the map and calls [map.jumpTo] on
    [null], which throws before the coordinate is pushed.  [None] is that
    exception. *)
Definition addCoordinate (v : Variant) (lng lat : R) (m : t) : option t :=
  match v, map m with
  | TS, false => Some m
  | JS, false => None
  | _, true => Some (mk (map m) (routeData m ++ [(lng, lat)]) (historyRouteData m))
  end.

(** [getRouteCoordinates]: a copy of the active route. *)
Definition getRouteCoordinates (m : t) : list Geo.Coordinate := routeData m.

(** [clearRoute]. *)
Definition clearRoute (m : t) : t := mk (map m) [] (historyRouteData m).

(** [showHistoryRoute] of [map.ts]. *)
Definition showHistoryRoute (coordinates : list Geo.Coordinate) (m : t) : t :=
  if negb (map m) || (length coordinates =? 0)%nat then m
  else mk (map m) (routeData m) coordinates.

End MapView.

(** ** Position source ([navigator.geolocation]) *)

Module Geolocation.

Record t : Type := mk {
  supported : bool;        (* [navigator.geolocation] is there *)
  watches : list nat;      (* handles of the active subscriptions *)
  nextId : nat             (* the handle the next subscription gets *)
}.

(** [watchPosition]: a new subscription with a fresh handle. *)
Definition watchPosition (g : t) : nat * t :=
  (nextId g, mk (supported g) (watches g ++ [nextId g]) (S (nextId g))).

(** [clearWatch]. *)
Definition clearWatch (watchId : nat) (g : t) : t :=
  mk (supported g) (remove Nat.eq_dec watchId (watches g)) (nextId g).

(** The coordinates of a [GeolocationPosition]. *)
Record Coords : Type := mkCoords {
  latitude : R;
  longitude : R;
  accuracy : R
}.

End Geolocation.

(** ** Run state machine ([src/run-tracker.ts], [src/run-tracker.js]) *)

Inductive RunState : Type := stopped | running | paused.

Definition RunState_eqb (a b : RunState) : bool :=
  match a, b with
  | stopped, stopped | running, running | paused, paused => true
  | _, _ => false
  end.

(** [lastPosition: { lng, lat } | null]. *)
Record LngLat : Type := mkLngLat { pos_lng : R; pos_lat : R }.

(** A call made to one of the two observer callbacks. *)
Inductive Notification : Type :=
| DistanceUpdate (distance : R)
| StateChange (state : RunState).

(** The module-level variables of the tracker. *)
Record Tracker : Type := mkTracker {
  state : RunState;
  watchId : option nat;
  startTime : option Z;
  pausedTime : Z;
  pauseStart : option Z;
  currentRunId : option string;
  lastPosition : option LngLat;
  onDistanceUpdate : bool;     (* a callback is registered *)
  onStateChange : bool         (* a callback is registered *)
}.

(** Everything the tracker reads and writes. *)
Record World : Type := mkWorld {
  tracker : Tracker;
  mapView : MapView.t;
  geolocation : Geolocation.t;
  runs : list Storage.Run;          (* the runs given to [saveRun], newest first *)
  notified : list Notification      (* calls to the observers, oldest first *)
}.

Definition MAX_ACCURACY : R := 30.
Definition MIN_MOVEMENT : R := 3.

(** *** Assignments to single variables *)

Definition set_state (x : RunState) (t : Tracker) : Tracker :=
  mkTracker x (watchId t) (startTime t) (pausedTime t) (pauseStart t)
            (currentRunId t) (lastPosition t) (onDistanceUpdate t) (onStateChange t).
Definition set_watchId (x : option nat) (t : Tracker) : Tracker :=
  mkTracker (state t) x (startTime t) (pausedTime t) (pauseStart t)
            (currentRunId t) (lastPosition t) (onDistanceUpdate t) (onStateChange t).
Definition set_startTime (x : option Z) (t : Tracker) : Tracker :=
  mkTracker (state t) (watchId t) x (pausedTime t) (pauseStart t)
            (currentRunId t) (lastPosition t) (onDistanceUpdate t) (onStateChange t).
Definition set_pausedTime (x : Z) (t : Tracker) : Tracker :=
  mkTracker (state t) (watchId t) (startTime t) x (pauseStart t)
            (currentRunId t) (lastPosition t) (onDistanceUpdate t) (onStateChange t).
Definition set_pauseStart (x : option Z) (t : Tracker) : Tracker :=
  mkTracker (state t) (watchId t) (startTime t) (pausedTime t) x
            (currentRunId t) (lastPosition t) (onDistanceUpdate t) (onStateChange t).
Definition set_currentRunId (x : option string) (t : Tracker) : Tracker :=
  mkTracker (state t) (watchId t) (startTime t) (pausedTime t) (pauseStart t)
            x (lastPosition t) (onDistanceUpdate t) (onStateChange t).
Definition set_lastPosition (x : option LngLat) (t : Tracker) : Tracker :=
  mkTracker (state t) (watchId t) (startTime t) (pausedTime t) (pauseStart t)
            (currentRunId t) x (onDistanceUpdate t) (onStateChange t).
Definition set_onDistanceUpdate (x : bool) (t : Tracker) : Tracker :=
  mkTracker (state t) (watchId t) (startTime t) (pausedTime t) (pauseStart t)
            (currentRunId t) (lastPosition t) x (onStateChange t).
Definition set_onStateChange (x : bool) (t : Tracker) : Tracker :=
  mkTracker (state t) (watchId t) (startTime t) (pausedTime t) (pauseStart t)
            (currentRunId t) (lastPosition t) (onDistanceUpdate t) x.

Definition on_tracker (f : Tracker -> Tracker) (w : World) : World :=
  mkWorld (f (tracker w)) (mapView w) (geolocation w) (runs w) (notified w).
Definition on_mapView (f : MapView.t -> MapView.t) (w : World) : World :=
  mkWorld (tracker w) (f (mapView w)) (geolocation w) (runs w) (notified w).
Definition on_geolocation (f : Geolocation.t -> Geolocation.t) (w : World) : World :=
  mkWorld (tracker w) (mapView w) (f (geolocation w)) (runs w) (notified w).
Definition on_runs (f : list Storage.Run -> list Storage.Run) (w : World) : World :=
  mkWorld (tracker w) (mapView w) (geolocation w) (f (runs w)) (notified w).
Definition notify (n : Notification) (w : World) : World :=
  mkWorld (tracker w) (mapView w) (geolocation w) (runs w) (notified w ++ [n]).

(** [onStateChange?.(state)]. *)
Definition call_onStateChange (w : World) : World :=
  if onStateChange (tracker w) then notify (StateChange (state (tracker w))) w else w.

(** [onDistanceUpdate?.(distance)]. *)
Definition call_onDistanceUpdate (distance : R) (w : World) : World :=
  if onDistanceUpdate (tracker w) then notify (DistanceUpdate distance) w else w.

(** [if (watchId !== null) { clearWatch(watchId); watchId = null; }]. *)
Definition stopWatching (w : World) : World :=
  match watchId (tracker w) with
  | Some i => on_tracker (set_watchId None) (on_geolocation (Geolocation.clearWatch i) w)
  | None => w
  end.

(** *** Queries *)

Definition getState (w : World) : RunState := state (tracker w).

(** [getElapsedTime]; [now] is the reading of [Date.now()]. *)
Definition getElapsedTime (w : World) (now : Z) : Z :=
  let t := tracker w in
  if negb (Js.truthy (startTime t)) then 0%Z
  else if RunState_eqb (state t) paused && Js.truthy (pauseStart t) then
    (Js.num (pauseStart t) - Js.num (startTime t) - pausedTime t)%Z
  else if RunState_eqb (state t) running then
    (now - Js.num (startTime t) - pausedTime t)%Z
  else 0%Z.

Definition getCurrentDistance (w : World) : R :=
  let coords := MapView.getRouteCoordinates (mapView w) in
  Geo.calculateTotalDistance coords.

Definition getLastPosition (w : World) : option LngLat := lastPosition (tracker w).

(** *** Operations *)

Definition setOnDistanceUpdate (w : World) : World :=
  on_tracker (set_onDistanceUpdate true) w.

Definition setOnStateChange (w : World) : World :=
  on_tracker (set_onStateChange true) w.

(** [startTracking].  [idNow] and [rnd] are what [generateId] reads, [now]
    is the reading of [Date.now()] in the branch taken.  Without a position
    source the user is alerted and nothing changes. *)
Definition startTracking (w : World) (idNow : Z) (rnd : string) (now : Z) : World :=
  if negb (Geolocation.supported (geolocation w)) then w
  else
    let w1 :=
      match state (tracker w) with
      | stopped =>
          (* Fresh start *)
          on_mapView MapView.clearRoute
            (on_tracker (set_pausedTime 0)
              (on_tracker (set_startTime (Some now))
                (on_tracker (set_currentRunId (Some (Storage.generateId idNow rnd))) w)))
      | paused =>
          if Js.truthy (pauseStart (tracker w)) then
            (* Resume from pause *)
            on_tracker (set_pauseStart None)
              (on_tracker
                 (set_pausedTime
                    (pausedTime (tracker w) + (now - Js.num (pauseStart (tracker w)))))
                 w)
          else w
      | running => w
      end in
    let w2 := call_onStateChange (on_tracker (set_state running) w1) in
    let (i, g) := Geolocation.watchPosition (geolocation w2) in
    on_tracker (set_watchId (Some i)) (on_geolocation (fun _ => g) w2).

(** [pauseTracking]. *)
Definition pauseTracking (w : World) (now : Z) : World :=
  match state (tracker w) with
  | running =>
      call_onStateChange
        (on_tracker (set_state paused)
          (on_tracker (set_pauseStart (Some now)) (stopWatching w)))
  | _ => w
  end.

(** The reset at the end of [finishRun]. *)
Definition resetSession (t : Tracker) : Tracker :=
  set_lastPosition None
    (set_currentRunId None
      (set_pauseStart None
        (set_pausedTime 0
          (set_startTime None
            (set_state stopped t))))).

(** The guard of the save in [finishRun]: [run-tracker.ts] also asks for a
    run id and a start time. *)
Definition hasActualData (v : Variant) (w : World)
    (coordinates : list Geo.Coordinate) (duration : Z) : bool :=
  (0 <? length coordinates)%nat && (0 <? duration)%Z &&
  match v with
  | TS => Js.truthyStr (currentRunId (tracker w)) && Js.truthy (startTime (tracker w))
  | JS => true
  end.

(** [finishRun] when [saveRun] returns.  [now] is the reading of
    [Date.now()] inside [getElapsedTime], [endNow] the instant of
    [new Date()].  The world keeps the runs that [saveRun] was given and
    returned from; what [localStorage] holds of them is [LocalStore]'s. *)
Definition finishRun (v : Variant) (w : World) (now endNow : Z) : World :=
  match state (tracker w) with
  | stopped => w
  | _ =>
      (* Stop watching *)
      let w1 := stopWatching w in
      let coordinates := MapView.getRouteCoordinates (mapView w1) in
      let distance := Geo.calculateTotalDistance coordinates in
      let duration := getElapsedTime w1 now in
      (* Only save if we have actual data *)
      let w2 :=
        if hasActualData v w1 coordinates duration then
          let run :=
            Storage.mkRun (currentRunId (tracker w1)) (Js.num (startTime (tracker w1)))
                          endNow duration distance coordinates in
          let w' := on_runs (cons run) w1 in
          match v with
          | TS => on_mapView (MapView.showHistoryRoute coordinates) w'
          | JS => w'
          end
        else w1 in
      (* Reset state; run-tracker.js also clears the route here *)
      let w3 := on_tracker resetSession w2 in
      let w4 :=
        match v with
        | TS => w3
        | JS => on_mapView MapView.clearRoute w3
        end in
      call_onStateChange w4
  end.

(** Whether [finishRun] calls [saveRun]: the state is not stopped and the
    guard of the save passes. *)
Definition savesRun (v : Variant) (w : World) (now : Z) : bool :=
  negb (RunState_eqb (state (tracker w)) stopped) &&
  hasActualData v (stopWatching w) (MapView.getRouteCoordinates (mapView (stopWatching w)))
                (getElapsedTime (stopWatching w) now).

(** [finishRun] with [saveRun] on [localStorage]: when [saveRun] throws, the
    rest of [finishRun] does not run.  The result is the world, the item in
    storage, and whether the call threw. *)
Definition finishRunOnStore (setItem : list Storage.Run -> LocalStore.Write) (v : Variant)
    (w : World) (i : LocalStore.Item) (now endNow : Z)
  : World * LocalStore.Outcome :=
  match state (tracker w) with
  | stopped => (w, LocalStore.mkOutcome i false)
  | _ =>
      let w1 := stopWatching w in
      let coordinates := MapView.getRouteCoordinates (mapView w1) in
      let distance := Geo.calculateTotalDistance coordinates in
      let duration := getElapsedTime w1 now in
      let reset w2 :=
        let w3 := on_tracker resetSession w2 in
        let w4 :=
          match v with
          | TS => w3
          | JS => on_mapView MapView.clearRoute w3
          end in
        call_onStateChange w4 in
      if hasActualData v w1 coordinates duration then
        let run :=
          Storage.mkRun (currentRunId (tracker w1)) (Js.num (startTime (tracker w1)))
                        endNow duration distance coordinates in
        let saved := LocalStore.saveRun setItem run i in
        if LocalStore.threw saved then (w1, saved)
        else
          let w' := on_runs (cons run) w1 in
          (reset match v with
                 | TS => on_mapView (MapView.showHistoryRoute coordinates) w'
                 | JS => w'
                 end,
           saved)
      else (reset w1, LocalStore.mkOutcome i false)
  end.

(** [finishRun] while storage takes no write: [saveRun], when there is a
    run to save, throws from its second write. *)
Definition finishRunStorageFull (v : Variant) (w : World) (now endNow : Z) : World :=
  fst (finishRunOnStore (fun _ => LocalStore.QuotaExceededError) v w
                        LocalStore.Missing now endNow).

(** [handlePositionUpdate]. *)
Definition handlePositionUpdate (v : Variant) (w : World)
    (position : Geolocation.Coords) : World :=
  let latitude := Geolocation.latitude position in
  let longitude := Geolocation.longitude position in
  let accuracy := Geolocation.accuracy position in
  (* Filter out inaccurate readings *)
  if Js.gtb accuracy MAX_ACCURACY then w
  else
    let coords := MapView.getRouteCoordinates (mapView w) in
    (* Filter out GPS jitter (very small movements) *)
    if (0 <? length coords)%nat &&
       Js.ltb (Geo.haversineDistance (Geo.at_index coords (length coords - 1))
                                     (longitude, latitude))
              MIN_MOVEMENT
    then w
    else
      (* Update last position *)
      let w1 := on_tracker (set_lastPosition (Some (mkLngLat longitude latitude))) w in
      (* Add to map *)
      match MapView.addCoordinate v longitude latitude (mapView w1) with
      | None => w1
      | Some m =>
          let w2 := on_mapView (fun _ => m) w1 in
          (* Notify distance update *)
          let distance :=
            Geo.calculateTotalDistance (MapView.getRouteCoordinates (mapView w2)) in
          call_onDistanceUpdate distance w2
      end.

(** [handlePlayPause] of [src/main.ts] and [src/main.js], the one caller of
    [startTracking] and [pauseTracking]. *)
Definition handlePlayPause (w : World) (idNow : Z) (rnd : string) (now : Z) : World :=
  match getState w with
  | stopped | paused => startTracking w idNow rnd now
  | running => pauseTracking w now
  end.

(** ** Sequences of operations *)

(** What can happen to the tracker, each event with the readings of the
    clock and of the random source that it consumes.  A finish comes twice,
    by what storage does when the run is saved: [Finish] where [saveRun]
    returns, [FinishStorageFull] where it throws. *)
Inductive Op : Type :=
| SetOnDistanceUpdate
| SetOnStateChange
| InitMap
| Start (idNow : Z) (rnd : string) (now : Z)
| Pause (now : Z)
| Finish (now endNow : Z)
| FinishStorageFull (now endNow : Z)
| PlayPause (idNow : Z) (rnd : string) (now : Z)
| Fix (watch : nat) (position : Geolocation.Coords).

(** The position source calls back only for a subscription that is active. *)
Definition deliver (v : Variant) (w : World) (watch : nat)
    (position : Geolocation.Coords) : World :=
  if existsb (Nat.eqb watch) (Geolocation.watches (geolocation w))
  then handlePositionUpdate v w position
  else w.

Definition step (v : Variant) (w : World) (op : Op) : World :=
  match op with
  | SetOnDistanceUpdate => setOnDistanceUpdate w
  | SetOnStateChange => setOnStateChange w
  | InitMap => on_mapView MapView.initMap w
  | Start idNow rnd now => startTracking w idNow rnd now
  | Pause now => pauseTracking w now
  | Finish now endNow => finishRun v w now endNow
  | FinishStorageFull now endNow => finishRunStorageFull v w now endNow
  | PlayPause idNow rnd now => handlePlayPause w idNow rnd now
  | Fix watch position => deliver v w watch position
  end.

Definition run (v : Variant) (ops : list Op) (w : World) : World :=
  fold_left (step v) ops w.

(** The world when the modules have just been loaded: [supported] tells
    whether the host has a position source, [history] is the runs saved
    before. *)
Definition initial (supported : bool) (history : list Storage.Run) : World :=
  mkWorld (mkTracker stopped None None 0 None None None false false)
          (MapView.mk false [] [])
          (Geolocation.mk supported [] 1)
          history
          [].

(** Every clock reading of the operation is after the epoch. *)
Definition clock_after_epoch (op : Op) : Prop :=
  match op with
  | Start idNow _ now | PlayPause idNow _ now => (0 < idNow /\ 0 < now)%Z
  | Pause now => (0 < now)%Z
  | Finish now endNow | FinishStorageFull now endNow => (0 < now /\ 0 < endNow)%Z
  | _ => True
  end.

(** No start and no pause reads the clock at exactly 0. *)
Definition clock_nonzero (op : Op) : Prop :=
  match op with
  | Start _ _ now | PlayPause _ _ now | Pause now => now <> 0%Z
  | _ => True
  end.

(** No pause reads the clock at exactly 0. *)
Definition pause_nonzero (op : Op) : Prop :=
  match op with
  | PlayPause _ _ now | Pause now => now <> 0%Z
  | _ => True
  end.

(** No finish is one where [saveRun] throws. *)
Definition save_returns (op : Op) : Prop :=
  match op with
  | FinishStorageFull _ _ => False
  | _ => True
  end.

(** [startTracking] is not called directly. *)
Definition no_direct_start (op : Op) : Prop :=
  match op with
  | Start _ _ _ => False
  | _ => True
  end.

(** [startTracking] is not called directly while the state is [running]. *)
Fixpoint start_guarded (v : Variant) (ops : list Op) (w : World) : Prop :=
  match ops with
  | [] => True
  | op :: rest =>
      match op with
      | Start _ _ _ => getState w <> running
      | _ => True
      end /\ start_guarded v rest (step v w op)
  end.

(** The session variables agree with the lifecycle state. *)
Definition session_consistent (t : Tracker) : Prop :=
  (pauseStart t <> None <-> state t = paused) /\
  (startTime t <> None <-> state t = running \/ state t = paused) /\
  (currentRunId t <> None <-> state t = running \/ state t = paused).

(** What an accepted sample does: it becomes the last position, it is put
    at the end of the route when there is a map, and the distance observer,
    when there is one, is called with the distance of the resulting route;
    nothing else changes. *)
Definition accepted (w w' : World) (position : Geolocation.Coords) : Prop :=
  let lng := Geolocation.longitude position in
  let lat := Geolocation.latitude position in
  let route' :=
    if MapView.map (mapView w)
    then MapView.routeData (mapView w) ++ [(lng, lat)]
    else MapView.routeData (mapView w) in
  w' = mkWorld (set_lastPosition (Some (mkLngLat lng lat)) (tracker w))
               (MapView.mk (MapView.map (mapView w)) route'
                           (MapView.historyRouteData (mapView w)))
               (geolocation w)
               (runs w)
               (notified w ++
                if onDistanceUpdate (tracker w)
                then [DistanceUpdate (Geo.calculateTotalDistance route')]
                else []).


(** The session variables are truthy where the code tests them: a start time
    and a run id while running or paused, a pause start while paused, and
    nothing left over otherwise. *)
Definition session_truthy (t : Tracker) : Prop :=
  match state t with
  | stopped => startTime t = None /\ pauseStart t = None /\ currentRunId t = None
  | running =>
      Js.truthy (startTime t) = true /\ pauseStart t = None /\
      Js.truthyStr (currentRunId t) = true
  | paused =>
      Js.truthy (startTime t) = true /\ Js.truthy (pauseStart t) = true /\
      Js.truthyStr (currentRunId t) = true
  end.

(** A run that is not stopped has a non-empty id. *)
Definition has_run_id (t : Tracker) : Prop :=
  state t <> stopped -> Js.truthyStr (currentRunId t) = true.

(** The session variables after the reset of [finishRun]. *)
Definition session_reset (t : Tracker) : Prop :=
  startTime t = None /\ pausedTime t = 0%Z /\ pauseStart t = None /\
  currentRunId t = None /\ lastPosition t = None.

(** Exactly one subscription, the one the tracker holds, while running, and
    none otherwise. *)
Definition one_subscription (w : World) : Prop :=
  match state (tracker w) with
  | running =>
      exists i, watchId (tracker w) = Some i /\
                Geolocation.watches (geolocation w) = [i]
  | _ => watchId (tracker w) = None /\ Geolocation.watches (geolocation w) = []
  end.

(** At most one subscription, the one the tracker holds, and none unless
    running. *)
Definition at_most_one_subscription (w : World) : Prop :=
  match watchId (tracker w) with
  | Some i => state (tracker w) = running /\ Geolocation.watches (geolocation w) = [i]
  | None => Geolocation.watches (geolocation w) = []
  end.


(** Two trackers that differ at most in the last position and the observers. *)
Definition same_session (t t' : Tracker) : Prop :=
  state t' = state t /\ watchId t' = watchId t /\ startTime t' = startTime t /\
  pausedTime t' = pausedTime t /\ pauseStart t' = pauseStart t /\
  currentRunId t' = currentRunId t.

(** Two fixes on one meridian: Alexanderplatz, and a point some 65 m to the
    north of it; and a run that takes both.  A third fix is a metre north
    of Alexanderplatz. *)
Definition alexanderplatz : Geolocation.Coords :=
  Geolocation.mkCoords 52.521918 13.413215 10.
Definition north_of_alexanderplatz : Geolocation.Coords :=
  Geolocation.mkCoords 52.5225 13.413215 10.
Definition two_fix_run : list Op :=
  [InitMap; Start 1000 "k3x9" 1000;
   Fix 1 alexanderplatz; Fix 1 north_of_alexanderplatz].

(** A world of [run-tracker.ts] and a world of [run-tracker.js] that have
    the same tracker variables, subscriptions, saved runs and observer
    calls, both with a map, and the same route unless stopped, where the
    route of [run-tracker.js] is empty. *)
Definition variants_agree (wT wJ : World) : Prop :=
  tracker wT = tracker wJ /\ geolocation wT = geolocation wJ /\
  runs wT = runs wJ /\ notified wT = notified wJ /\
  MapView.map (mapView wT) = true /\ MapView.map (mapView wJ) = true /\
  (state (tracker wT) <> stopped ->
   MapView.routeData (mapView wT) = MapView.routeData (mapView wJ)) /\
  (state (tracker wJ) = stopped -> MapView.routeData (mapView wJ) = []).

(** ** Display of durations ([src/units.ts], [src/units.js]) *)

Module Units.
Local Open Scope Z_scope.

(** [n.toString()] for an integer. *)
Definition toString (n : Z) : string := NilZero.string_of_int (Z.to_int n).

(** [s.padStart(2, '0')]. *)
Definition padStart2 (s : string) : string :=
  match String.length s with
  | 0%nat => "00"
  | 1%nat => ("0" ++ s)%string
  | _ => s
  end.

Definition pad (n : Z) : string := padStart2 (toString n).

(** [formatDuration] on a whole number of milliseconds.  [Math.floor] of a
    quotient is [Z.div]; [%] takes the sign of the dividend, as [Z.rem]. *)
Definition formatDuration (ms : Z) : string :=
  let totalSeconds := ms / 1000 in
  let hours := totalSeconds / 3600 in
  let minutes := Z.rem totalSeconds 3600 / 60 in
  let seconds := Z.rem totalSeconds 60 in
  (pad hours ++ ":" ++ pad minutes ++ ":" ++ pad seconds)%string.

End Units.

(** ** Markers of the active route ([src/map.ts])

    The two markers of [addCoordinate] and [clearRoute], each by the
    coordinate it stands at. *)

Module Markers.

Record t : Type := mk {
  view : MapView.t;
  startMarker : option Geo.Coordinate;
  currentMarker : option Geo.Coordinate
}.

(** [addCoordinate] of [map.ts]. *)
Definition addCoordinate (lng lat : R) (m : t) : t :=
  if negb (MapView.map (view m)) then m
  else
    let coords := (lng, lat) in
    let m1 :=
      match MapView.routeData (view m) with
      | [] => mk (view m) (Some coords) (Some coords)
      | _ =>
          (* [currentMarker?.setLngLat(coords)] *)
          match currentMarker m with
          | Some _ => mk (view m) (startMarker m) (Some coords)
          | None => m
          end
      end in
    mk (MapView.mk (MapView.map (view m1))
                   (MapView.routeData (view m1) ++ [(lng, lat)])
                   (MapView.historyRouteData (view m1)))
       (startMarker m1) (currentMarker m1).

(** [clearRoute]. *)
Definition clearRoute (m : t) : t := mk (MapView.clearRoute (view m)) None None.

(** [initMap], [showHistoryRoute] and [clearHistoryRoute] of [map.ts]. *)
Definition initMap (m : t) : t :=
  mk (MapView.initMap (view m)) (startMarker m) (currentMarker m).
Definition showHistoryRoute (coordinates : list Geo.Coordinate) (m : t) : t :=
  mk (MapView.showHistoryRoute coordinates (view m)) (startMarker m) (currentMarker m).
Definition clearHistoryRoute (m : t) : t :=
  if negb (MapView.map (view m)) then m
  else mk (MapView.mk (MapView.map (view m)) (MapView.routeData (view m)) [])
          (startMarker m) (currentMarker m).

(** A call into the map module. *)
Inductive Call : Type :=
| InitMap
| AddCoordinate (lng lat : R)
| ClearRoute
| ShowHistoryRoute (coordinates : list Geo.Coordinate)
| ClearHistoryRoute.

Definition call (m : t) (c : Call) : t :=
  match c with
  | InitMap => initMap m
  | AddCoordinate lng lat => addCoordinate lng lat m
  | ClearRoute => clearRoute m
  | ShowHistoryRoute coordinates => showHistoryRoute coordinates m
  | ClearHistoryRoute => clearHistoryRoute m
  end.

(** The map module when it has just been loaded. *)
Definition initial : t := mk (MapView.mk false [] []) None None.

End Markers.

(** ** Readings of the code used to state further properties *)

(** A run with actual data: a route, a positive duration, an id, and
    the distance of its route. *)
Definition actual_run (r : Storage.Run) : Prop :=
  Storage.coordinates r <> [] /\ (0 < Storage.duration r)%Z /\
  Storage.id r <> None /\
  Storage.distance r = Geo.calculateTotalDistance (Storage.coordinates r).

(** The reading of [Date.now()] that an operation takes for its
    bookkeeping, when it takes one. *)
Definition reading (op : Op) : option Z :=
  match op with
  | Start _ _ now | PlayPause _ _ now | Pause now | Finish now _
  | FinishStorageFull now _ => Some now
  | _ => None
  end.

(** The clock does not run backwards through the operations; [last] is the
    reading before them. *)
Fixpoint clock_nondecreasing (last : Z) (ops : list Op) : Prop :=
  match ops with
  | [] => True
  | op :: rest =>
      match reading op with
      | Some now => (last <= now)%Z /\ clock_nondecreasing now rest
      | None => clock_nondecreasing last rest
      end
  end.

(** The last reading taken by the operations. *)
Fixpoint last_reading (last : Z) (ops : list Op) : Z :=
  match ops with
  | [] => last
  | op :: rest =>
      match reading op with
      | Some now => last_reading now rest
      | None => last_reading last rest
      end
  end.

(** The bookkeeping of time at clock reading [last]: the paused time is not
    negative, and start time plus paused time is not after the pause start,
    nor after [last]; there is no start time while stopped. *)
Definition time_accounted (last : Z) (t : Tracker) : Prop :=
  (0 <= pausedTime t)%Z /\
  match state t with
  | stopped => startTime t = None
  | running =>
      exists s, startTime t = Some s /\ (0 < s)%Z /\ (s + pausedTime t <= last)%Z
  | paused =>
      exists s p, startTime t = Some s /\ pauseStart t = Some p /\
                  (0 < s)%Z /\ (0 < p)%Z /\ (s + pausedTime t <= p)%Z /\ (p <= last)%Z
  end.

(** The state that the state observer was last called with; [stopped] when
    it was never called. *)
Definition shown_state (log : list Notification) : RunState :=
  fold_left (fun shown n => match n with StateChange s => s | _ => shown end)
            log stopped.

(** The last coordinate of a route as a position. *)
Definition route_end (route : list Geo.Coordinate) : option LngLat :=
  match rev route with
  | [] => None
  | (lng, lat) :: _ => Some (mkLngLat lng lat)
  end.

(** The last position is the end of the route while running or paused, and
    there is none while stopped. *)
Definition position_matches_route (w : World) : Prop :=
  match state (tracker w) with
  | stopped => lastPosition (tracker w) = None
  | _ => lastPosition (tracker w) = route_end (MapView.routeData (mapView w))
  end.

(** The tracker holds a handle only while running, the handle it holds is
    active, and no handle is active twice or yet to be given out. *)
Definition handles_consistent (w : World) : Prop :=
  match watchId (tracker w) with
  | Some i => state (tracker w) = running /\ In i (Geolocation.watches (geolocation w))
  | None => True
  end /\
  NoDup (Geolocation.watches (geolocation w)) /\
  Forall (fun i => i < Geolocation.nextId (geolocation w)) (Geolocation.watches (geolocation w)).


(** The decimal digit [d], and the two digits of a number below 100. *)
Definition digit (d : Z) : ascii := ascii_of_nat (48 + Z.to_nat d).
Definition two_digits (n : Z) : string :=
  String (digit (n / 10)) (String (digit (n mod 10)) EmptyString).

(** The start marker stands at the first coordinate of the route and the
    current marker at the last; there is no marker without a route. *)
Definition markers_match (m : Markers.t) : Prop :=
  match MapView.routeData (Markers.view m) with
  | [] => Markers.startMarker m = None /\ Markers.currentMarker m = None
  | first :: _ =>
      Markers.startMarker m = Some first /\
      Markers.currentMarker m = Some (last (MapView.routeData (Markers.view m)) first)
  end.

(** Whether the character [c] occurs in [s]. *)
Fixpoint occurs (c : ascii) (s : string) : bool :=
  match s with
  | EmptyString => false
  | String a rest => Ascii.eqb a c || occurs c rest
  end.

(** ** Proof automation *)

#[global] Arguments Geo.haversineDistance : simpl never.
#[global] Arguments Geo.calculateTotalDistance : simpl never.
#[global] Arguments Storage.generateId : simpl never.

(** Unfolds the assignments of an operation down to record fields. *)
Ltac fields :=
  unfold call_onDistanceUpdate, call_onStateChange, stopWatching in *;
  cbn [notify
       on_tracker on_mapView on_geolocation on_runs resetSession
       set_state set_watchId set_startTime set_pausedTime set_pauseStart
       set_currentRunId set_lastPosition set_onDistanceUpdate set_onStateChange
       getState getCurrentDistance getLastPosition
       MapView.getRouteCoordinates MapView.clearRoute MapView.initMap
       Geolocation.watchPosition Geolocation.clearWatch
       tracker mapView geolocation runs notified
       state watchId startTime pausedTime pauseStart currentRunId lastPosition
       onDistanceUpdate onStateChange
       MapView.map MapView.routeData MapView.historyRouteData
       Geolocation.supported Geolocation.watches Geolocation.nextId] in *.

(** Case analysis on the tests an operation makes. *)
Ltac split_tests :=
  repeat
    (fields;
     first
       [ match goal with
         | |- context [if ?b then _ else _] => is_var b; destruct b
         | |- context [match ?o with Some _ => _ | None => _ end] => is_var o; destruct o
         end
       | match goal with
         | |- context [if ?b then _ else _] => destruct b eqn:?
         | |- context [match ?o with Some _ => _ | None => _ end] => destruct o eqn:?
         end ]);
  fields.

(** Opens a world into its variables and runs an operation on it. *)
Ltac open_world w :=
  destruct w as [[st wid stt pt ps cid lp odu osc] [mp rd hrd] [sup ws nid] rs ntf];
  unfold handlePlayPause in *;
  unfold startTracking, pauseTracking, finishRun, hasActualData,
    getElapsedTime, setOnDistanceUpdate, setOnStateChange in *;
  fields.

(** Closes the conjuncts of an agreement once both worlds are explicit. *)
Ltac agree_done :=
  repeat split; intros; fields; try congruence; auto;
  try match goal with
      | H : ?s <> stopped -> _ |- _ => apply H; discriminate
      end.

(** Opens a world of each variant that agree. *)
Ltac open_worlds wT wJ :=
  destruct wT as [[st wid stt pt ps cid lp odu osc] [mp rd hrd] [sup ws nid] rs ntf];
  destruct wJ as [tJ [mpJ rdJ hrdJ] gJ rsJ ntfJ];
  unfold variants_agree; fields;
  intros (<- & <- & <- & <- & -> & -> & Hrun & Hstop);
  unfold handlePlayPause in *;
  unfold startTracking, pauseTracking, finishRun, hasActualData,
    getElapsedTime, setOnDistanceUpdate, setOnStateChange in *;
  fields.

(** * Properties of the geo math *)

Section GeoFacts.
Local Open Scope R_scope.
Import Geo.






End GeoFacts.

Section GreatCircleFacts.
Local Open Scope R_scope.
Import Geo.

(** Over the reals, along a meridian the distance is the radius times the
    difference of latitude in radians.  It places the distances between
    the fixes of the examples, 64.7 m and 1.1 m, on their side of the 3 m
    of the filter, where the doubles of the code have them too. *)
Lemma haversineDistance_meridian (l phi0 phi1 : R) :
  0 <= phi1 - phi0 < 180 ->
  haversineDistance (l, phi0) (l, phi1) = 6371000 * toRadians (phi1 - phi0).
Proof.
  intros [Hlo Hhi].
  unfold haversineDistance, haversineA, lng, lat. cbn [fst snd].
  set (x := toRadians (phi1 - phi0) / 2).
  assert (Hx : 0 <= x < PI / 2).
  { unfold x, toRadians. pose proof PI_RGT_0. split; nra. }
  replace (toRadians (l - l) / 2) with 0 by (unfold toRadians; lra).
  rewrite sin_0.
  replace (sin x * sin x + cos (toRadians phi0) * cos (toRadians phi1) * 0 * 0)
    with (sin x * sin x) by ring.
  assert (Hsin : 0 <= sin x) by (apply sin_ge_0; lra).
  assert (Hcos : 0 < cos x) by (apply cos_gt_0; lra).
  rewrite (sqrt_square _ Hsin).
  replace (1 - sin x * sin x) with (cos x * cos x)
    by (pose proof (sin2_cos2 x) as H; unfold Rsqr in H; lra).
  rewrite (sqrt_square (cos x)) by lra.
  unfold atan2. destruct (Rlt_dec 0 (cos x)) as [_ | Hn]; [| contradiction].
  change (sin x / cos x) with (tan x).
  rewrite atan_tan by lra.
  unfold x. lra.
Qed.

End GreatCircleFacts.

(** * Properties of the route distance *)

Section RouteDistanceFacts.
Local Open Scope R_scope.
Import Geo.

Lemma calculateTotalDistance_loop (coordinates : list Coordinate) :
  calculateTotalDistance coordinates =
  fold_left (fun totalDistance i => totalDistance + leg coordinates i)
            (seq 1 (length coordinates - 1)) 0.
Proof.
  unfold calculateTotalDistance.
  destruct coordinates as [| p [| q rest]]; reflexivity.
Qed.

Lemma fold_left_plus_ext (f g : nat -> R) (l : list nat) (acc : R) :
  (forall i, In i l -> f i = g i) ->
  fold_left (fun t i => t + f i) l acc = fold_left (fun t i => t + g i) l acc.
Proof.
  revert acc. induction l as [| i l IH]; intros acc Hfg; simpl.
  - reflexivity.
  - rewrite (Hfg i (or_introl eq_refl)).
    apply IH. intros j Hj. apply Hfg. now right.
Qed.

Lemma leg_app_inside (r : list Coordinate) (c : Coordinate) (i : nat) :
  (i < length r)%nat -> leg (r ++ [c]) i = leg r i.
Proof.
  intros Hi. unfold leg, at_index.
  rewrite !app_nth1 by lia. reflexivity.
Qed.

Lemma leg_app_last (r : list Coordinate) (c : Coordinate) :
  (0 < length r)%nat ->
  leg (r ++ [c]) (length r) = haversineDistance (at_index r (length r - 1)) c.
Proof.
  intros Hr. unfold leg, at_index.
  rewrite app_nth1 by lia.
  rewrite app_nth2 by lia.
  rewrite Nat.sub_diag. reflexivity.
Qed.

(** Appending a coordinate adds exactly one summand to the loop. *)
Lemma calculateTotalDistance_app (r : list Coordinate) (c : Coordinate) :
  calculateTotalDistance (r ++ [c]) =
  calculateTotalDistance r +
  (if (0 <? length r)%nat
   then haversineDistance (at_index r (length r - 1)) c
   else 0).
Proof.
  rewrite !calculateTotalDistance_loop.
  rewrite length_app. change (length [c]) with 1%nat.
  destruct (Nat.eq_dec (length r) 0) as [Hnil | Hcons].
  - apply length_zero_iff_nil in Hnil. subst r. simpl. lra.
  - assert (Hlen : (0 < length r)%nat) by lia.
    replace (length r + 1 - 1)%nat with (S (length r - 1)) by lia.
    rewrite seq_S, fold_left_app. cbn [fold_left].
    replace (1 + (length r - 1))%nat with (length r) by lia.
    rewrite leg_app_last by assumption.
    replace (0 <? length r)%nat with true by (symmetry; now apply Nat.ltb_lt).
    f_equal.
    apply fold_left_plus_ext.
    intros i Hi. apply in_seq in Hi.
    apply leg_app_inside. lia.
Qed.

Lemma fold_left_plus_sum_f_R0 (f : nat -> R) (k : nat) :
  fold_left (fun t i => t + f i) (seq 1 (S k)) 0 =
  sum_f_R0 (fun x => f (x + 1)%nat) k.
Proof.
  induction k as [| k IH].
  - simpl. lra.
  - rewrite seq_S, fold_left_app, IH. simpl.
    replace (S (k + 1)) with (S (S k)) by lia. reflexivity.
Qed.

End RouteDistanceFacts.

Section GeoClaims.
Local Open Scope R_scope.
Import Geo.


(** C7. The route distance of a sequence with fewer than two coordinates is
    zero, and the route distance of [p0 .. pn] with [n >= 1] is the sum over
    [i] from 1 to [n] of the distance from [p(i-1)] to [p(i)]. *)
Theorem calculateTotalDistance_is_sum_of_consecutive_distances :
  calculateTotalDistance [] = 0 /\
  (forall p : Coordinate, calculateTotalDistance [p] = 0) /\
  (forall (p0 p1 : Coordinate) (ps : list Coordinate),
     let points := p0 :: p1 :: ps in
     let n := (length points - 1)%nat in
     calculateTotalDistance points =
     sum_f 1 n (fun i => haversineDistance (at_index points (i - 1)) (at_index points i))).
Proof.
  split; [reflexivity |]. split; [reflexivity |].
  intros p0 p1 ps points n.
  rewrite calculateTotalDistance_loop.
  subst n. unfold sum_f.
  replace (length points - 1)%nat with (S (length ps)) by (subst points; simpl; lia).
  rewrite (fold_left_plus_sum_f_R0 (leg points)).
  replace (S (length ps) - 1)%nat with (length ps) by lia.
  reflexivity.
Qed.

End GeoClaims.

Section GeoDoubleClaims.
Import Floats.
Local Open Scope float_scope.
Import GeoDouble.

(** From latitude 2.5, longitude 0 to the antipode, in doubles: the two
    summands of [a] are 0.001902650954127234 and 0.9980973490458729, their
    sum rounds to 1.0000000000000002, and [Math.sqrt(1 - a)] is the root
    of a negative number. *)
Lemma haversineDistance_antipode (M : Math) :
  known_at_antipode M -> haversineDistance M (0, 2.5) (180, -2.5) = nan.
Proof.
  intros (Hsin & Hcos & Hcos' & Hsin1 & Hnan).
  unfold haversineDistance. cbn [fst snd].
  change (toRadians (-2.5 - 2.5) / 2) with (-0x1.657184ae74487p-5).
  change (toRadians (180 - 0) / 2) with 0x1.921fb54442d18p+0.
  change (toRadians 2.5) with 0x1.657184ae74487p-5.
  change (toRadians (-2.5)) with (-0x1.657184ae74487p-5).
  rewrite Hsin, Hcos, Hcos', Hsin1.
  match goal with
  | |- context [atan2 M ?y ?x] => change x with nan
  end.
  rewrite Hnan. reflexivity.
Qed.

(** C6.  In the doubles that the code computes with, the distance from
    latitude 2.5, longitude 0 to its antipode is NaN.  The jitter test
    [movement < MIN_MOVEMENT] is false of NaN, so the fix is accepted, the
    route distance becomes NaN, and it is not at least the route distance
    before the fix, which was 0. *)
Theorem route_distance_is_NaN_after_a_fix_at_the_antipode :
  forall M : Math,
    known_at_antipode M ->
    is_nan (haversineDistance M (0, 2.5) (180, -2.5)) = true /\
    (haversineDistance M (0, 2.5) (180, -2.5) <? 3) = false /\
    calculateTotalDistance M [(0, 2.5)] = 0 /\
    is_nan (calculateTotalDistance M [(0, 2.5); (180, -2.5)]) = true /\
    (calculateTotalDistance M [(0, 2.5)] <=?
     calculateTotalDistance M [(0, 2.5); (180, -2.5)]) = false.
Proof.
  intros M Hknown.
  pose proof (haversineDistance_antipode M Hknown) as Hdistance.
  assert (Htotal : calculateTotalDistance M [(0, 2.5); (180, -2.5)] = nan).
  { unfold calculateTotalDistance.
    cbn [length Nat.ltb Nat.leb seq fold_left Nat.sub nth].
    rewrite Hdistance. reflexivity. }
  rewrite Hdistance, Htotal.
  repeat split; reflexivity.
Qed.

Lemma route_distance_is_NaN_after_a_fix_at_the_antipode_witness :
  known_at_antipode table_at_antipode /\
  is_nan (calculateTotalDistance table_at_antipode [(0, 2.5); (180, -2.5)]) = true.
Proof.
  assert (Hknown : known_at_antipode table_at_antipode).
  { unfold known_at_antipode. repeat split; reflexivity. }
  split; [exact Hknown |].
  exact (proj1 (proj2 (proj2 (proj2
           (route_distance_is_NaN_after_a_fix_at_the_antipode _ Hknown))))).
Defined.

End GeoDoubleClaims.

(** * Properties of the position filter and of the state machine *)

Section FilterFacts.
Local Open Scope R_scope.
Import Geo.


Lemma gtb_false_iff (x y : R) : Js.gtb x y = false <-> x <= y.
Proof.
  unfold Js.gtb. destruct (Rgt_dec x y); split; intros; try easy; lra.
Qed.


Lemma ltb_false_iff (x y : R) : Js.ltb x y = false <-> y <= x.
Proof.
  unfold Js.ltb. destruct (Rlt_dec x y); split; intros; try easy; lra.
Qed.

(** What [addCoordinate] returns when it returns. *)
Lemma addCoordinate_some (v : Variant) (lng lat : R) (m m' : MapView.t) :
  MapView.addCoordinate v lng lat m = Some m' ->
  MapView.map m' = MapView.map m /\
  MapView.historyRouteData m' = MapView.historyRouteData m /\
  MapView.routeData m' =
    if MapView.map m then MapView.routeData m ++ [(lng, lat)] else MapView.routeData m.
Proof.
  unfold MapView.addCoordinate.
  destruct v, (MapView.map m) eqn:Hmap; intros [= <-]; cbn; rewrite ?Hmap; auto.
Qed.

(** [addCoordinate] throws in [map.js] without a map, and nowhere else. *)
Lemma addCoordinate_none (v : Variant) (lng lat : R) (m : MapView.t) :
  MapView.addCoordinate v lng lat m = None <-> v = JS /\ MapView.map m = false.
Proof.
  unfold MapView.addCoordinate.
  destruct v, (MapView.map m); split; try discriminate; try tauto;
    intros [H1 H2]; discriminate.
Qed.


(** A position update leaves the map where it is. *)
Lemma handlePositionUpdate_map (v : Variant) (w : World) (p : Geolocation.Coords) :
  MapView.map (mapView w) = true ->
  MapView.map (mapView (handlePositionUpdate v w p)) = true.
Proof.
  intros Hmap. unfold handlePositionUpdate.
  destruct (Js.gtb _ _); [exact Hmap |].
  destruct (_ && _); [exact Hmap |].
  fields.
  destruct (MapView.addCoordinate _ _ _ _) as [m' |] eqn:Hadd; [| exact Hmap].
  apply addCoordinate_some in Hadd. destruct Hadd as (Hmap' & _).
  destruct (onDistanceUpdate (tracker w)); fields; congruence.
Qed.

End FilterFacts.

Section FilterClaims.
Local Open Scope R_scope.
Import Geo.

Lemma at_index_last (coords : list Coordinate) :
  at_index coords (length coords - 1) = last coords (0, 0).
Proof.
  unfold at_index.
  induction coords as [| c rest IH]; [reflexivity |].
  destruct rest as [| d rest']; [reflexivity |].
  replace (length (c :: d :: rest') - 1)%nat
    with (S (length (d :: rest') - 1)) by (simpl; lia).
  change (nth (S (length (d :: rest') - 1)) (c :: d :: rest') (0, 0))
    with (nth (length (d :: rest') - 1) (d :: rest') (0, 0)).
  rewrite IH. reflexivity.
Qed.

Lemma handlePositionUpdate_accepts (v : Variant) (w : World) (p : Geolocation.Coords) :
  v = TS \/ MapView.map (mapView w) = true ->
  Js.gtb (Geolocation.accuracy p) MAX_ACCURACY = false ->
  (0 <? length (MapView.routeData (mapView w)))%nat &&
  Js.ltb (haversineDistance (last (MapView.routeData (mapView w)) (0, 0))
                            (Geolocation.longitude p, Geolocation.latitude p))
         MIN_MOVEMENT = false ->
  accepted w (handlePositionUpdate v w p) p.
Proof.
  intros Hmap Hacc Hmove. unfold accepted, handlePositionUpdate.
  rewrite Hacc. unfold MapView.getRouteCoordinates.
  rewrite at_index_last, Hmove.
  unfold MapView.addCoordinate. fields.
  destruct v, (MapView.map (mapView w)) eqn:Hmapw;
    try (destruct Hmap; discriminate);
    destruct (onDistanceUpdate (tracker w)) eqn:Hobs; fields; rewrite ?Hobs, ?Hmapw;
    fields; rewrite ?app_nil_r; try reflexivity;
    destruct w as [t [m r h] g rs n]; cbn in *; subst; reflexivity.
Qed.

(** [handlePositionUpdate] of [run-tracker.js] without a map: a sample that
    passes both tests becomes the last position, and then [addCoordinate]
    throws: the route does not grow and no observer is called. *)
Lemma handlePositionUpdate_throws_without_map (w : World) (p : Geolocation.Coords) :
  MapView.map (mapView w) = false ->
  Js.gtb (Geolocation.accuracy p) MAX_ACCURACY = false ->
  MapView.routeData (mapView w) = [] ->
  handlePositionUpdate JS w p =
  on_tracker
    (set_lastPosition (Some (mkLngLat (Geolocation.longitude p) (Geolocation.latitude p))))
    w.
Proof.
  intros Hmap Hacc Hroute. unfold handlePositionUpdate.
  rewrite Hacc. unfold MapView.getRouteCoordinates, MapView.addCoordinate.
  rewrite Hroute. fields. rewrite Hmap. reflexivity.
Qed.


End FilterClaims.

Section SessionFacts.

Lemma same_session_refl (t : Tracker) : same_session t t.
Proof. unfold same_session. tauto. Qed.

Lemma handlePositionUpdate_same_session (v : Variant) (w : World) (p : Geolocation.Coords) :
  same_session (tracker w) (tracker (handlePositionUpdate v w p)) /\
  geolocation (handlePositionUpdate v w p) = geolocation w /\
  runs (handlePositionUpdate v w p) = runs w.
Proof.
  unfold handlePositionUpdate.
  destruct (Js.gtb _ _); [auto using same_session_refl |].
  destruct (_ && _); [auto using same_session_refl |].
  fields. destruct (MapView.addCoordinate _ _ _ _); fields;
    destruct (onDistanceUpdate (tracker w)); fields;
    unfold same_session; cbn; tauto.
Qed.

Lemma deliver_same_session (v : Variant) (w : World) (i : nat) (p : Geolocation.Coords) :
  same_session (tracker w) (tracker (deliver v w i p)) /\
  geolocation (deliver v w i p) = geolocation w /\
  runs (deliver v w i p) = runs w.
Proof.
  unfold deliver. destruct (existsb _ _).
  - apply handlePositionUpdate_same_session.
  - auto using same_session_refl.
Qed.

Lemma session_truthy_same (t t' : Tracker) :
  same_session t t' -> session_truthy t -> session_truthy t'.
Proof.
  unfold same_session, session_truthy.
  intros (-> & _ & -> & _ & -> & ->). trivial.
Qed.

Lemma has_run_id_same (t t' : Tracker) :
  same_session t t' -> has_run_id t -> has_run_id t'.
Proof.
  unfold same_session, has_run_id.
  intros (-> & _ & _ & _ & _ & ->). trivial.
Qed.

Lemma generateId_truthy (now : Z) (rnd : string) :
  Js.truthyStr (Some (Storage.generateId now rnd)) = true.
Proof. reflexivity. Qed.

Lemma truthy_nonzero (now : Z) : now <> 0%Z -> Js.truthy (Some now) = true.
Proof.
  intros Hnow. unfold Js.truthy.
  destruct (Z.eqb_spec now 0); [contradiction | reflexivity].
Qed.

Lemma truthy_after_epoch (now : Z) : (0 < now)%Z -> Js.truthy (Some now) = true.
Proof. intros Hnow. apply truthy_nonzero. lia. Qed.

Lemma clock_after_epoch_nonzero (op : Op) : clock_after_epoch op -> clock_nonzero op.
Proof. destruct op; cbn; intros; trivial; lia. Qed.

Lemma clock_nonzero_pause (op : Op) : clock_nonzero op -> pause_nonzero op.
Proof. destruct op; cbn; trivial. Qed.

End SessionFacts.

Section StopWatchingFacts.

(** Ending the subscription forgets the handle and changes no other
    variable of the tracker. *)
Lemma stopWatching_tracker (w : World) :
  tracker (stopWatching w) = set_watchId None (tracker w).
Proof.
  unfold stopWatching. destruct (watchId (tracker w)) eqn:Hwid; [reflexivity |].
  destruct w as [[st wid stt pt ps cid lp odu osc] m g rs n]. cbn in *. now subst.
Qed.

Lemma stopWatching_state (w : World) :
  state (tracker (stopWatching w)) = state (tracker w).
Proof. now rewrite stopWatching_tracker. Qed.

Lemma stopWatching_watchId (w : World) : watchId (tracker (stopWatching w)) = None.
Proof. now rewrite stopWatching_tracker. Qed.

Lemma stopWatching_same_world (w : World) :
  mapView (stopWatching w) = mapView w /\
  runs (stopWatching w) = runs w /\
  notified (stopWatching w) = notified w /\
  Geolocation.supported (geolocation (stopWatching w)) =
    Geolocation.supported (geolocation w) /\
  Geolocation.nextId (geolocation (stopWatching w)) = Geolocation.nextId (geolocation w).
Proof. unfold stopWatching. destruct (watchId (tracker w)); cbn; auto. Qed.

Lemma stopWatching_watches (w : World) :
  Geolocation.watches (geolocation (stopWatching w)) =
  match watchId (tracker w) with
  | Some i => remove Nat.eq_dec i (Geolocation.watches (geolocation w))
  | None => Geolocation.watches (geolocation w)
  end.
Proof. unfold stopWatching. destruct (watchId (tracker w)); reflexivity. Qed.

Lemma getElapsedTime_stopWatching (w : World) (now : Z) :
  getElapsedTime (stopWatching w) now = getElapsedTime w now.
Proof. unfold getElapsedTime. now rewrite stopWatching_tracker. Qed.

End StopWatchingFacts.

Section FinishOnStoreFacts.

(** The world after [finishRun] on [localStorage] is that of [finishRun]
    when [saveRun] returned or was not called, and the world with the
    subscription ended when [saveRun] threw. *)
Lemma finishRunOnStore_world (setItem : list Storage.Run -> LocalStore.Write)
    (v : Variant) (w : World) (i : LocalStore.Item) (now endNow : Z) :
  fst (finishRunOnStore setItem v w i now endNow) =
  if LocalStore.threw (snd (finishRunOnStore setItem v w i now endNow))
  then stopWatching w
  else finishRun v w now endNow.
Proof.
  unfold finishRunOnStore, finishRun.
  destruct (state (tracker w)); [reflexivity | |];
    (destruct (hasActualData _ _ _ _); [| reflexivity]);
    destruct (LocalStore.threw (LocalStore.saveRun setItem _ i)) eqn:Hthrew;
    cbn [fst snd]; rewrite Hthrew; reflexivity.
Qed.

(** [saveRun] throws only when it is called. *)
Lemma finishRunOnStore_threw (setItem : list Storage.Run -> LocalStore.Write)
    (v : Variant) (w : World) (i : LocalStore.Item) (now endNow : Z) :
  LocalStore.threw (snd (finishRunOnStore setItem v w i now endNow)) = true ->
  savesRun v w now = true.
Proof.
  unfold finishRunOnStore, savesRun.
  destruct (state (tracker w)); cbn [RunState_eqb negb andb fst snd LocalStore.threw];
    [discriminate | |];
    (destruct (hasActualData _ _ _ _); [reflexivity |]); cbn; discriminate.
Qed.

Lemma finishRunStorageFull_eq (v : Variant) (w : World) (now endNow : Z) :
  finishRunStorageFull v w now endNow =
  if savesRun v w now then stopWatching w else finishRun v w now endNow.
Proof.
  unfold finishRunStorageFull, finishRunOnStore, finishRun, savesRun.
  destruct (state (tracker w)); cbn [RunState_eqb negb andb]; [reflexivity | |];
    (destruct (hasActualData _ _ _ _); reflexivity).
Qed.

Lemma savesRun_not_stopped (v : Variant) (w : World) (now : Z) :
  savesRun v w now = true -> state (tracker w) <> stopped.
Proof.
  unfold savesRun. destruct (state (tracker w)); cbn; congruence.
Qed.

(** What holds after [finishRun] and after the end of the subscription
    holds after a finish on a storage that takes no write. *)
Lemma finishRunStorageFull_cases (v : Variant) (w : World) (now endNow : Z) :
  finishRunStorageFull v w now endNow = finishRun v w now endNow \/
  state (tracker w) <> stopped /\ finishRunStorageFull v w now endNow = stopWatching w.
Proof.
  rewrite finishRunStorageFull_eq.
  destruct (savesRun v w now) eqn:Hsaves; [right | now left].
  split; [now apply (savesRun_not_stopped v w now) | reflexivity].
Qed.

(** The worlds of a finish on [localStorage] are those of the two finishes
    among the operations. *)
Lemma finishRunOnStore_step (setItem : list Storage.Run -> LocalStore.Write)
    (v : Variant) (w : World) (i : LocalStore.Item) (now endNow : Z) :
  fst (finishRunOnStore setItem v w i now endNow) =
  step v w (if LocalStore.threw (snd (finishRunOnStore setItem v w i now endNow))
            then FinishStorageFull now endNow else Finish now endNow).
Proof.
  rewrite finishRunOnStore_world.
  destruct (LocalStore.threw _) eqn:Hthrew; cbn [step]; [| reflexivity].
  rewrite finishRunStorageFull_eq.
  now rewrite (finishRunOnStore_threw setItem v w i now endNow Hthrew).
Qed.

End FinishOnStoreFacts.

Section OperationFacts.

Lemma startTracking_session_truthy (w : World) (idNow : Z) (rnd : string) (now : Z) :
  now <> 0%Z ->
  session_truthy (tracker w) ->
  session_truthy (tracker (startTracking w idNow rnd now)).
Proof.
  intros Hnow. pose proof (truthy_nonzero now Hnow) as Htruthy.
  open_world w. unfold session_truthy. cbn.
  destruct sup; cbn; [| trivial].
  destruct st; cbn; intros (H1 & H2 & H3).
  - destruct osc; cbn; subst; auto.
  - destruct osc; cbn; auto.
  - rewrite H2. destruct osc; cbn; auto.
Qed.

Lemma pauseTracking_session_truthy (w : World) (now : Z) :
  now <> 0%Z ->
  session_truthy (tracker w) ->
  session_truthy (tracker (pauseTracking w now)).
Proof.
  intros Hnow. pose proof (truthy_nonzero now Hnow) as Htruthy.
  open_world w. unfold session_truthy. cbn.
  destruct st; cbn; trivial.
  intros (H1 & H2 & H3).
  destruct wid, osc; cbn; auto.
Qed.

Lemma finishRun_session_truthy (v : Variant) (w : World) (now endNow : Z) :
  session_truthy (tracker w) ->
  session_truthy (tracker (finishRun v w now endNow)).
Proof.
  open_world w. unfold session_truthy. cbn.
  destruct st; cbn; trivial; intros _;
    destruct wid; cbn; split_tests; try destruct v; cbn; auto.
Qed.

Lemma stopWatching_session_truthy (w : World) :
  session_truthy (tracker w) -> session_truthy (tracker (stopWatching w)).
Proof. rewrite stopWatching_tracker. trivial. Qed.

Lemma finishRunStorageFull_session_truthy (v : Variant) (w : World) (now endNow : Z) :
  session_truthy (tracker w) ->
  session_truthy (tracker (finishRunStorageFull v w now endNow)).
Proof.
  intros Hinv.
  destruct (finishRunStorageFull_cases v w now endNow) as [-> | [_ ->]].
  - now apply finishRun_session_truthy.
  - now apply stopWatching_session_truthy.
Qed.

Lemma step_session_truthy_nonzero (v : Variant) (w : World) (op : Op) :
  clock_nonzero op ->
  session_truthy (tracker w) ->
  session_truthy (tracker (step v w op)).
Proof.
  destruct op; cbn [step clock_nonzero]; intros Hclock Hinv.
  - exact Hinv.
  - exact Hinv.
  - exact Hinv.
  - now apply startTracking_session_truthy.
  - now apply pauseTracking_session_truthy.
  - now apply finishRun_session_truthy.
  - now apply finishRunStorageFull_session_truthy.
  - unfold handlePlayPause.
    destruct (getState w);
      (now apply startTracking_session_truthy) ||
      (now apply pauseTracking_session_truthy).
  - eapply session_truthy_same; [| exact Hinv].
    apply deliver_same_session.
Qed.

Lemma step_session_truthy (v : Variant) (w : World) (op : Op) :
  clock_after_epoch op ->
  session_truthy (tracker w) ->
  session_truthy (tracker (step v w op)).
Proof.
  intros Hclock. apply step_session_truthy_nonzero.
  now apply clock_after_epoch_nonzero.
Qed.

Lemma run_session_truthy_nonzero (v : Variant) (ops : list Op) (w : World) :
  Forall clock_nonzero ops ->
  session_truthy (tracker w) ->
  session_truthy (tracker (run v ops w)).
Proof.
  unfold run. revert w.
  induction ops as [| op ops IH]; intros w Hclock Hinv; cbn [fold_left].
  - exact Hinv.
  - inversion Hclock; subst. apply IH; [assumption |].
    now apply step_session_truthy_nonzero.
Qed.

Lemma run_session_truthy (v : Variant) (ops : list Op) (w : World) :
  Forall clock_after_epoch ops ->
  session_truthy (tracker w) ->
  session_truthy (tracker (run v ops w)).
Proof.
  intros Hclock. apply run_session_truthy_nonzero.
  eapply Forall_impl; [| exact Hclock]. apply clock_after_epoch_nonzero.
Qed.

Lemma initial_session_truthy (supported : bool) (history : list Storage.Run) :
  session_truthy (tracker (initial supported history)).
Proof. unfold session_truthy. cbn. auto. Qed.

Lemma session_truthy_consistent (t : Tracker) :
  session_truthy t -> session_consistent t.
Proof.
  unfold session_truthy, session_consistent.
  destruct t as [st wid stt pt ps cid lp odu osc]; cbn.
  destruct st; intros (H1 & H2 & H3); subst;
    repeat split; intros; try congruence; auto;
    try (destruct H; congruence);
    try (intros ->; cbn in *; congruence).
Qed.

End OperationFacts.

Section SessionSetFacts.









End SessionSetFacts.

Section RunIdFacts.

Lemma startTracking_has_run_id (w : World) (idNow : Z) (rnd : string) (now : Z) :
  has_run_id (tracker w) -> has_run_id (tracker (startTracking w idNow rnd now)).
Proof.
  open_world w. unfold has_run_id.
  destruct sup; cbn [negb]; [| trivial].
  destruct st; fields; intros Hinv _.
  - destruct osc; reflexivity.
  - destruct osc; apply Hinv; discriminate.
  - destruct (Js.truthy ps), osc; fields; apply Hinv; discriminate.
Qed.

Lemma pauseTracking_has_run_id (w : World) (now : Z) :
  has_run_id (tracker w) -> has_run_id (tracker (pauseTracking w now)).
Proof.
  open_world w. unfold has_run_id.
  destruct st; fields; trivial.
  intros Hinv _. destruct wid, osc; fields; apply Hinv; discriminate.
Qed.

Lemma finishRun_stopped (v : Variant) (w : World) (now endNow : Z) :
  state (tracker (finishRun v w now endNow)) = stopped.
Proof.
  open_world w.
  destruct st; fields; trivial;
    destruct wid; fields; split_tests; try destruct v; reflexivity.
Qed.

Lemma finishRun_has_run_id (v : Variant) (w : World) (now endNow : Z) :
  has_run_id (tracker (finishRun v w now endNow)).
Proof.
  unfold has_run_id. rewrite finishRun_stopped. congruence.
Qed.

Lemma step_has_run_id (v : Variant) (w : World) (op : Op) :
  has_run_id (tracker w) -> has_run_id (tracker (step v w op)).
Proof.
  destruct op; cbn [step]; intros Hinv.
  - exact Hinv.
  - exact Hinv.
  - exact Hinv.
  - now apply startTracking_has_run_id.
  - now apply pauseTracking_has_run_id.
  - apply finishRun_has_run_id.
  - destruct (finishRunStorageFull_cases v w now endNow) as [-> | [_ ->]].
    + apply finishRun_has_run_id.
    + unfold has_run_id. now rewrite stopWatching_tracker.
  - unfold handlePlayPause.
    destruct (getState w);
      (now apply startTracking_has_run_id) || (now apply pauseTracking_has_run_id).
  - eapply has_run_id_same; [| exact Hinv].
    apply deliver_same_session.
Qed.

Lemma run_has_run_id (v : Variant) (ops : list Op) (w : World) :
  has_run_id (tracker w) -> has_run_id (tracker (run v ops w)).
Proof.
  unfold run. revert w.
  induction ops as [| op ops IH]; intros w Hinv; cbn [fold_left].
  - exact Hinv.
  - apply IH. now apply step_has_run_id.
Qed.

Lemma initial_has_run_id (supported : bool) (history : list Storage.Run) :
  has_run_id (tracker (initial supported history)).
Proof. unfold has_run_id. cbn. congruence. Qed.

End RunIdFacts.

Section FinishFacts.

Lemma finishRun_runs (v : Variant) (w : World) (now endNow : Z) :
  state (tracker w) <> stopped ->
  has_run_id (tracker w) ->
  runs (finishRun v w now endNow) =
  if (0 <? length (MapView.routeData (mapView w)))%nat && (0 <? getElapsedTime w now)%Z
  then Storage.mkRun (currentRunId (tracker w)) (Js.num (startTime (tracker w)))
                     endNow (getElapsedTime w now) (getCurrentDistance w)
                     (MapView.routeData (mapView w)) :: runs w
  else runs w.
Proof.
  intros Hstate Hid. specialize (Hid Hstate). revert Hstate Hid.
  open_world w. intros Hstate Hid.
  destruct st; [congruence | |];
    destruct wid, v; fields; rewrite ?Hid; cbn [RunState_eqb andb negb];
    destruct (Js.truthy stt); cbn [andb negb];
    rewrite ?andb_true_r, ?andb_false_r;
    split_tests; fields; try reflexivity; try discriminate.
Qed.

Lemma finishRun_session_reset (v : Variant) (w : World) (now endNow : Z) :
  state (tracker w) <> stopped ->
  session_reset (tracker (finishRun v w now endNow)) /\
  watchId (tracker (finishRun v w now endNow)) = None.
Proof.
  open_world w. unfold session_reset. intros Hstate.
  destruct st; [congruence | |];
    destruct wid; fields; split_tests; try destruct v; fields; auto 10.
Qed.

End FinishFacts.

Section SubscriptionFacts.

Lemma remove_only (i : nat) : remove Nat.eq_dec i [i] = [].
Proof. cbn. destruct (Nat.eq_dec i i); [reflexivity | congruence]. Qed.

Lemma startTracking_one_subscription (w : World) (idNow : Z) (rnd : string) (now : Z) :
  state (tracker w) <> running ->
  one_subscription w ->
  one_subscription (startTracking w idNow rnd now).
Proof.
  open_world w. unfold one_subscription. fields.
  destruct sup; cbn [negb]; [| trivial].
  destruct st; fields; intros Hstate Hinv; try congruence;
    destruct Hinv as [-> ->]; split_tests; fields; eauto.
Qed.

Lemma pauseTracking_one_subscription (w : World) (now : Z) :
  one_subscription w -> one_subscription (pauseTracking w now).
Proof.
  open_world w. unfold one_subscription. fields.
  destruct st; fields; trivial.
  intros (i & -> & ->).
  destruct osc; fields; rewrite remove_only; auto.
Qed.

Lemma finishRun_one_subscription (v : Variant) (w : World) (now endNow : Z) :
  one_subscription w -> one_subscription (finishRun v w now endNow).
Proof.
  open_world w. unfold one_subscription. fields.
  destruct st; fields; trivial.
  - intros (i & -> & ->).
    split_tests; try destruct v; fields; rewrite remove_only; auto.
  - intros (-> & ->). fields. split_tests; try destruct v; fields; auto.
Qed.

Lemma deliver_one_subscription (v : Variant) (w : World) (i : nat) (p : Geolocation.Coords) :
  one_subscription w -> one_subscription (deliver v w i p).
Proof.
  destruct (deliver_same_session v w i p) as ((Hst & Hwid & _) & Hgeo & _).
  unfold one_subscription. rewrite Hst, Hwid, Hgeo. trivial.
Qed.

Lemma guarded_step_one_subscription (v : Variant) (w : World) (op : Op) :
  match op with Start _ _ _ => getState w <> running | _ => True end ->
  save_returns op ->
  one_subscription w ->
  one_subscription (step v w op).
Proof.
  destruct op; cbn [step save_returns]; intros Hguard Hsave Hinv.
  - exact Hinv.
  - exact Hinv.
  - exact Hinv.
  - now apply startTracking_one_subscription.
  - now apply pauseTracking_one_subscription.
  - now apply finishRun_one_subscription.
  - contradiction.
  - unfold handlePlayPause, getState.
    destruct (state (tracker w)) eqn:Hstate.
    + apply startTracking_one_subscription; [congruence | assumption].
    + now apply pauseTracking_one_subscription.
    + apply startTracking_one_subscription; [congruence | assumption].
  - now apply deliver_one_subscription.
Qed.

Lemma guarded_run_one_subscription (v : Variant) (ops : list Op) (w : World) :
  start_guarded v ops w ->
  Forall save_returns ops ->
  one_subscription w ->
  one_subscription (run v ops w).
Proof.
  unfold run. revert w.
  induction ops as [| op ops IH]; intros w Hguard Hsave Hinv; cbn [fold_left].
  - exact Hinv.
  - destruct Hguard as [Hop Hrest]. inversion Hsave; subst.
    apply IH; [exact Hrest | assumption |].
    now apply guarded_step_one_subscription.
Qed.

(** One subscription while running and none otherwise is at most one. *)
Lemma one_subscription_at_most (w : World) :
  one_subscription w -> at_most_one_subscription w.
Proof.
  unfold one_subscription, at_most_one_subscription.
  destruct (state (tracker w)) eqn:Hstate.
  - intros [-> ->]. reflexivity.
  - intros (i & -> & ->). auto.
  - intros [-> ->]. reflexivity.
Qed.

(** With at most one subscription, a handle is active only while running. *)
Lemma at_most_one_active (w : World) (i : nat) :
  at_most_one_subscription w ->
  existsb (Nat.eqb i) (Geolocation.watches (geolocation w)) = true ->
  state (tracker w) = running.
Proof.
  unfold at_most_one_subscription.
  destruct (watchId (tracker w)); [tauto |].
  intros ->. discriminate.
Qed.

Lemma startTracking_at_most (w : World) (idNow : Z) (rnd : string) (now : Z) :
  state (tracker w) <> running ->
  at_most_one_subscription w ->
  at_most_one_subscription (startTracking w idNow rnd now).
Proof.
  open_world w. unfold at_most_one_subscription. fields.
  destruct sup; cbn [negb]; [| trivial].
  intros Hstate Hinv. destruct wid as [i |]; [tauto |]. subst ws.
  destruct st; fields; try congruence; split_tests; fields; auto.
Qed.

Lemma stopWatching_at_most (w : World) :
  at_most_one_subscription w -> at_most_one_subscription (stopWatching w).
Proof.
  unfold at_most_one_subscription.
  rewrite stopWatching_watchId, stopWatching_watches.
  destruct (watchId (tracker w)); [| trivial].
  intros [_ ->]. apply remove_only.
Qed.

(** With at most one subscription, none is left when the held one is ended. *)
Lemma stopWatching_at_most_none (w : World) :
  at_most_one_subscription w ->
  Geolocation.watches (geolocation (stopWatching w)) = [].
Proof.
  unfold at_most_one_subscription. rewrite stopWatching_watches.
  destruct (watchId (tracker w)); [| trivial].
  intros [_ ->]. apply remove_only.
Qed.

Lemma pauseTracking_at_most (w : World) (now : Z) :
  at_most_one_subscription w -> at_most_one_subscription (pauseTracking w now).
Proof.
  open_world w. unfold at_most_one_subscription. fields.
  destruct st; fields; trivial.
  destruct wid as [i |].
  - intros [_ ->]. destruct osc; fields; apply remove_only.
  - intros ->. destruct osc; reflexivity.
Qed.

Lemma finishRun_at_most (v : Variant) (w : World) (now endNow : Z) :
  at_most_one_subscription w -> at_most_one_subscription (finishRun v w now endNow).
Proof.
  open_world w. unfold at_most_one_subscription. fields.
  destruct st; fields; trivial; destruct wid as [i |];
    try (intros [_ ->]); try (intros ->);
    split_tests; try destruct v; fields; rewrite ?remove_only; auto; try discriminate.
Qed.

Lemma finishRunStorageFull_at_most (v : Variant) (w : World) (now endNow : Z) :
  at_most_one_subscription w ->
  at_most_one_subscription (finishRunStorageFull v w now endNow).
Proof.
  intros Hinv.
  destruct (finishRunStorageFull_cases v w now endNow) as [-> | [_ ->]].
  - now apply finishRun_at_most.
  - now apply stopWatching_at_most.
Qed.

Lemma deliver_at_most (v : Variant) (w : World) (i : nat) (p : Geolocation.Coords) :
  at_most_one_subscription w -> at_most_one_subscription (deliver v w i p).
Proof.
  destruct (deliver_same_session v w i p) as ((Hst & Hwid & _) & Hgeo & _).
  unfold at_most_one_subscription. rewrite Hst, Hwid, Hgeo. trivial.
Qed.

Lemma guarded_step_at_most (v : Variant) (w : World) (op : Op) :
  match op with Start _ _ _ => getState w <> running | _ => True end ->
  at_most_one_subscription w ->
  at_most_one_subscription (step v w op).
Proof.
  destruct op; cbn [step]; intros Hguard Hinv.
  - exact Hinv.
  - exact Hinv.
  - exact Hinv.
  - now apply startTracking_at_most.
  - now apply pauseTracking_at_most.
  - now apply finishRun_at_most.
  - now apply finishRunStorageFull_at_most.
  - unfold handlePlayPause, getState.
    destruct (state (tracker w)) eqn:Hstate.
    + apply startTracking_at_most; [congruence | assumption].
    + now apply pauseTracking_at_most.
    + apply startTracking_at_most; [congruence | assumption].
  - now apply deliver_at_most.
Qed.

Lemma guarded_run_at_most (v : Variant) (ops : list Op) (w : World) :
  start_guarded v ops w ->
  at_most_one_subscription w ->
  at_most_one_subscription (run v ops w).
Proof.
  unfold run. revert w.
  induction ops as [| op ops IH]; intros w Hguard Hinv; cbn [fold_left].
  - exact Hinv.
  - destruct Hguard as [Hop Hrest].
    apply IH; [exact Hrest |].
    now apply guarded_step_at_most.
Qed.

Lemma initial_at_most (supported : bool) (history : list Storage.Run) :
  at_most_one_subscription (initial supported history).
Proof. reflexivity. Qed.

(** The host's position source does not come or go. *)
Lemma step_supported (v : Variant) (w : World) (op : Op) :
  Geolocation.supported (geolocation (step v w op)) =
  Geolocation.supported (geolocation w).
Proof.
  destruct op; cbn [step]; try reflexivity.
  - open_world w. destruct sup, st; cbn [negb]; fields; split_tests; reflexivity.
  - open_world w. destruct st; fields; split_tests; reflexivity.
  - open_world w. destruct st; fields; split_tests; try destruct v; reflexivity.
  - destruct (finishRunStorageFull_cases v w now endNow) as [-> | [_ ->]].
    + open_world w. destruct st; fields; split_tests; try destruct v; reflexivity.
    + apply stopWatching_same_world.
  - open_world w. destruct sup, st; cbn [negb]; fields; split_tests; reflexivity.
  - destruct (deliver_same_session v w watch position) as (_ & -> & _).
    reflexivity.
Qed.

Lemma run_supported (v : Variant) (ops : list Op) (supported : bool)
    (history : list Storage.Run) :
  Geolocation.supported (geolocation (run v ops (initial supported history))) = supported.
Proof.
  unfold run.
  assert (Hkeep : forall w,
             Geolocation.supported (geolocation (fold_left (step v) ops w)) =
             Geolocation.supported (geolocation w)).
  { induction ops as [| op ops IH]; intros w; cbn [fold_left]; [reflexivity |].
    rewrite IH. apply step_supported. }
  rewrite Hkeep. reflexivity.
Qed.

(** Every call of [startTracking] on a host with a position source adds a
    subscription, whatever the state. *)
Lemma startTracking_subscribes (w : World) (idNow : Z) (rnd : string) (now : Z) :
  Geolocation.supported (geolocation w) = true ->
  Geolocation.watches (geolocation (startTracking w idNow rnd now)) =
  Geolocation.watches (geolocation w) ++ [Geolocation.nextId (geolocation w)].
Proof.
  open_world w. intros ->. cbn [negb].
  destruct st; fields; split_tests; reflexivity.
Qed.

(** [handlePlayPause] calls [startTracking] only from [stopped] or [paused]:
    a sequence of operations without a direct [Start] is guarded. *)
Lemma no_direct_start_guarded (v : Variant) (ops : list Op) (w : World) :
  Forall no_direct_start ops ->
  start_guarded v ops w.
Proof.
  revert w. induction ops as [| op ops IH]; intros w Hops; cbn [start_guarded].
  - exact I.
  - inversion Hops; subst. split; [| now apply IH].
    destruct op; trivial. contradiction.
Qed.

End SubscriptionFacts.

Section ElapsedFacts.

Lemma getElapsedTime_truthy (w : World) (now : Z) :
  session_truthy (tracker w) ->
  match state (tracker w) with
  | stopped => getElapsedTime w now = 0%Z
  | paused =>
      exists start pause,
        startTime (tracker w) = Some start /\ pauseStart (tracker w) = Some pause /\
        getElapsedTime w now = (pause - start - pausedTime (tracker w))%Z
  | running =>
      exists start,
        startTime (tracker w) = Some start /\
        getElapsedTime w now = (now - start - pausedTime (tracker w))%Z
  end.
Proof.
  open_world w. unfold session_truthy. fields.
  destruct st; intros (H1 & H2 & H3).
  - subst. reflexivity.
  - rewrite H1. destruct stt as [start |]; [| discriminate].
    exists start. split; reflexivity.
  - rewrite H1, H2.
    destruct stt as [start |]; [| discriminate].
    destruct ps as [pause |]; [| discriminate].
    exists start, pause. repeat split.
Qed.

(** A resume continues from the elapsed time that the pause had frozen:
    the time spent paused is not counted. *)
Lemma resume_continues_from_frozen_time (w : World) (idNow : Z) (rnd : string)
    (now frozenAt : Z) :
  state (tracker w) = paused ->
  session_truthy (tracker w) ->
  Geolocation.supported (geolocation w) = true ->
  getElapsedTime (startTracking w idNow rnd now) now = getElapsedTime w frozenAt.
Proof.
  open_world w. unfold session_truthy. fields.
  intros -> (H1 & H2 & H3) ->. cbn [negb]. rewrite H2.
  destruct osc; fields; rewrite H1; cbn [negb RunState_eqb andb]; rewrite ?H2;
    destruct stt as [start |], ps as [pause |]; try discriminate;
    cbn [Js.num]; lia.
Qed.

End ElapsedFacts.

Section StateMachineClaims.



(** A finish in which [saveRun] returns, from every reachable state other
    than stopped: it stops the session and resets its variables; the run is
    given to [saveRun] when the route is not empty and the computed
    duration is positive, and nothing is saved otherwise. *)
Theorem finishRun_stops_and_saves_only_actual_data :
  forall (v : Variant) (supported : bool) (history : list Storage.Run) (ops : list Op)
         (now endNow : Z),
    let w := run v ops (initial supported history) in
    getState w <> stopped ->
    let w' := finishRun v w now endNow in
    let coordinates := MapView.getRouteCoordinates (mapView w) in
    let duration := getElapsedTime w now in
    getState w' = stopped /\
    session_reset (tracker w') /\
    (coordinates <> [] /\ (0 < duration)%Z ->
     runs w' =
     Storage.mkRun (currentRunId (tracker w)) (Js.num (startTime (tracker w)))
                   endNow duration (getCurrentDistance w) coordinates :: runs w) /\
    (coordinates = [] \/ (duration <= 0)%Z -> runs w' = runs w).
Proof.
  intros v supported history ops now endNow w Hstate w' coordinates duration.
  assert (Hid : has_run_id (tracker w))
    by (apply run_has_run_id, initial_has_run_id).
  pose proof (finishRun_runs v w now endNow Hstate Hid) as Hruns.
  fold w' in Hruns. fold duration in Hruns.
  change (MapView.routeData (mapView w)) with coordinates in Hruns.
  split; [apply finishRun_stopped |].
  split; [apply finishRun_session_reset; exact Hstate |].
  split.
  - intros [Hroute Hpos]. rewrite Hruns.
    replace (0 <? length coordinates)%nat with true.
    + replace (0 <? duration)%Z with true; [reflexivity |].
      symmetry. now apply Z.ltb_lt.
    + symmetry. apply Nat.ltb_lt. destruct coordinates; [congruence | simpl; lia].
  - intros [Hroute | Hzero]; rewrite Hruns.
    + rewrite Hroute. reflexivity.
    + replace (0 <? duration)%Z with false.
      * now rewrite andb_false_r.
      * symmetry. apply Z.ltb_ge. exact Hzero.
Qed.

(** [startTracking] subscribes on every call on a host with a position
    source, whatever the state.  When it is not called directly while the
    state is running, as with [handlePlayPause], at most one subscription is
    active, the one whose handle the tracker holds, and none is active
    while stopped or paused; while running exactly one is active, unless a
    finish has ended it and then stopped short in [saveRun]. *)
Theorem guarded_start_keeps_one_subscription :
  forall (v : Variant) (supported : bool) (history : list Storage.Run) (ops : list Op),
    start_guarded v ops (initial supported history) ->
    let w := run v ops (initial supported history) in
    at_most_one_subscription w /\
    (Forall save_returns ops -> one_subscription w) /\
    (length (Geolocation.watches (geolocation w)) <= 1)%nat /\
    (forall (idNow : Z) (rnd : string) (now : Z),
       supported = true ->
       Geolocation.watches (geolocation (startTracking w idNow rnd now)) =
       Geolocation.watches (geolocation w) ++ [Geolocation.nextId (geolocation w)]).
Proof.
  intros v supported history ops Hguard w.
  assert (Hmost : at_most_one_subscription w).
  { apply guarded_run_at_most; [exact Hguard | apply initial_at_most]. }
  split; [exact Hmost |]. split; [| split].
  - intros Hsave. apply guarded_run_one_subscription; [exact Hguard | exact Hsave |].
    unfold one_subscription. cbn. auto.
  - unfold at_most_one_subscription in Hmost.
    destruct (watchId (tracker w)).
    + destruct Hmost as [_ ->]. simpl. lia.
    + rewrite Hmost. simpl. lia.
  - intros idNow rnd now Hsupported.
    apply startTracking_subscribes.
    subst w. rewrite run_supported. exact Hsupported.
Qed.

End StateMachineClaims.

Section StateMachineExamples.

(** C1.  [startTracking] has no test for the state running: a second call
    while running leaves two active subscriptions where the state machine
    is to keep one. *)
Lemma startTracking_while_running_subscribes_again :
  getState (run TS [Start 1000 "k3x9" 1000] (initial true [])) = running /\
  Geolocation.watches
    (geolocation (run TS [Start 1000 "k3x9" 1000] (initial true []))) = [1%nat] /\
  getState (run TS [Start 1000 "k3x9" 1000; Start 2000 "p0q7" 2000] (initial true []))
    = running /\
  Geolocation.watches
    (geolocation (run TS [Start 1000 "k3x9" 1000; Start 2000 "p0q7" 2000]
                      (initial true []))) = [1%nat; 2%nat] /\
  ~ one_subscription
      (run TS [Start 1000 "k3x9" 1000; Start 2000 "p0q7" 2000] (initial true [])).
Proof.
  repeat split; try reflexivity.
  unfold one_subscription. cbn.
  intros (i & _ & Hwatches). discriminate Hwatches.
Qed.

Lemma guarded_start_keeps_one_subscription_witness :
  start_guarded TS
    [PlayPause 1000 "k3x9" 1000; PlayPause 1000 "k3x9" 5000;
     Start 1000 "k3x9" 9000; Finish 12000 12000]
    (initial true []) /\
  one_subscription
    (run TS
       [PlayPause 1000 "k3x9" 1000; PlayPause 1000 "k3x9" 5000;
        Start 1000 "k3x9" 9000; Finish 12000 12000]
       (initial true [])).
Proof.
  split.
  - cbn. repeat split; discriminate.
  - apply (guarded_start_keeps_one_subscription TS true []).
    + cbn. repeat split; discriminate.
    + repeat constructor.
Defined.





(** Three seconds of running, two of pause, three more of running. *)
Example elapsed_after_pause_and_resume :
  getElapsedTime
    (run TS [Start 1000 "k3x9" 1000; Pause 4000; Start 4000 "k3x9" 6000]
         (initial true [])) 9000 = 6000%Z /\
  getElapsedTime
    (run TS [Start 1000 "k3x9" 1000; Pause 4000] (initial true [])) 9000 = 3000%Z.
Proof. split; reflexivity. Qed.

(** A finish with no coordinate on the route stores nothing. *)
Example finish_without_fixes_stores_nothing :
  runs (run TS [InitMap; Start 1000 "k3x9" 1000; Finish 9000 9000] (initial true [])) = [] /\
  getState (run TS [InitMap; Start 1000 "k3x9" 1000; Finish 9000 9000] (initial true []))
    = stopped.
Proof. split; reflexivity. Qed.

(** Without a position source a start changes nothing. *)
Example start_without_position_source :
  run TS [Start 1000 "k3x9" 1000] (initial false []) = initial false [].
Proof. reflexivity. Qed.

End StateMachineExamples.

Section RouteFrameFacts.
Local Open Scope R_scope.

Lemma finishRun_TS_route (w : World) (now endNow : Z) :
  MapView.routeData (mapView (finishRun TS w now endNow)) = MapView.routeData (mapView w).
Proof.
  open_world w. unfold MapView.showHistoryRoute.
  destruct st; fields; trivial; destruct wid; fields; split_tests; reflexivity.
Qed.

Lemma finishRun_JS_route (w : World) (now endNow : Z) :
  state (tracker w) <> stopped ->
  MapView.routeData (mapView (finishRun JS w now endNow)) = [].
Proof.
  open_world w. intros Hstate.
  destruct st; [congruence | |]; destruct wid; fields; split_tests; reflexivity.
Qed.

Lemma stopWatching_route (w : World) :
  MapView.routeData (mapView (stopWatching w)) = MapView.routeData (mapView w).
Proof. now destruct (stopWatching_same_world w) as (-> & _). Qed.


(** Whatever storage does, [finishRun] of [run-tracker.ts] leaves the route
    as it is. *)
Lemma finishRunOnStore_route (setItem : list Storage.Run -> LocalStore.Write)
    (w : World) (i : LocalStore.Item) (now endNow : Z) :
  MapView.routeData (mapView (fst (finishRunOnStore setItem TS w i now endNow))) =
  MapView.routeData (mapView w).
Proof.
  rewrite finishRunOnStore_world. destruct (LocalStore.threw _).
  - apply stopWatching_route.
  - apply finishRun_TS_route.
Qed.





End RouteFrameFacts.

Section RouteFrameClaims.
Local Open Scope R_scope.


End RouteFrameClaims.

Section RunFacts.

Lemma run_app (v : Variant) (ops ops' : list Op) (w : World) :
  run v (ops ++ ops') w = run v ops' (run v ops w).
Proof. unfold run. apply fold_left_app. Qed.

Lemma run_one (v : Variant) (op : Op) (w : World) : run v [op] w = step v w op.
Proof. reflexivity. Qed.

End RunFacts.

Section VariantFacts.
Local Open Scope R_scope.
Import Geo.

(** A fix on an active subscription that passes both filters, on a world
    with a map: the coordinate is appended and the session goes on. *)
Lemma deliver_appends (v : Variant) (w : World) (i : nat) (p : Geolocation.Coords) :
  In i (Geolocation.watches (geolocation w)) ->
  MapView.map (mapView w) = true ->
  Geolocation.accuracy p <= 30 ->
  (MapView.routeData (mapView w) = [] \/
   haversineDistance (last (MapView.routeData (mapView w)) (0, 0))
                     (Geolocation.longitude p, Geolocation.latitude p) >= 3) ->
  MapView.routeData (mapView (deliver v w i p)) =
    MapView.routeData (mapView w) ++ [(Geolocation.longitude p, Geolocation.latitude p)] /\
  MapView.map (mapView (deliver v w i p)) = true /\
  state (tracker (deliver v w i p)) = state (tracker w) /\
  geolocation (deliver v w i p) = geolocation w.
Proof.
  intros Hin Hmap Hacc Hmove.
  destruct (deliver_same_session v w i p) as ((Hstate & _) & Hgeo & _).
  split; [| split; [| split]]; try assumption.
  - unfold deliver.
    replace (existsb (Nat.eqb i) (Geolocation.watches (geolocation w))) with true.
    2:{ symmetry. apply existsb_exists. exists i. split; [assumption | apply Nat.eqb_refl]. }
    assert (Haccepted : accepted w (handlePositionUpdate v w p) p).
    { apply handlePositionUpdate_accepts.
      - now right.
      - now apply gtb_false_iff.
      - destruct Hmove as [-> | Hfar]; [reflexivity |].
        apply andb_false_iff. right. apply ltb_false_iff. unfold MIN_MOVEMENT. lra. }
    unfold accepted in Haccepted. rewrite Haccepted. fields.
    rewrite Hmap. reflexivity.
  - unfold deliver. destruct (existsb _ _); [| assumption].
    now apply handlePositionUpdate_map.
Qed.

Lemma fixes_are_apart :
  haversineDistance (13.413215, 52.521918) (13.413215, 52.5225) =
  6371000 * toRadians 0.000582.
Proof.
  rewrite haversineDistance_meridian by lra.
  f_equal. f_equal. lra.
Qed.

Lemma fixes_are_apart_enough : 6371000 * toRadians 0.000582 >= 3.
Proof. unfold toRadians. pose proof PI2_1. lra. Qed.

End VariantFacts.

Section VariantExamples.
Local Open Scope R_scope.
Import Geo.

Lemma two_fix_run_route (v : Variant) :
  state (tracker (run v two_fix_run (initial true []))) = running /\
  MapView.routeData (mapView (run v two_fix_run (initial true []))) =
    [(13.413215, 52.521918); (13.413215, 52.5225)].
Proof.
  unfold two_fix_run, run. cbn [fold_left step].
  set (w1 := startTracking (on_mapView MapView.initMap (initial true [])) 1000 "k3x9" 1000).
  assert (Hwatch1 : Geolocation.watches (geolocation w1) = [1%nat]) by reflexivity.
  assert (Hmap1 : MapView.map (mapView w1) = true) by reflexivity.
  assert (Hroute1 : MapView.routeData (mapView w1) = []) by reflexivity.
  assert (Hstate1 : state (tracker w1) = running) by reflexivity.
  destruct (deliver_appends v w1 1 alexanderplatz) as (Hroute2 & Hmap2 & Hstate2 & Hgeo2).
  { rewrite Hwatch1. now left. }
  { exact Hmap1. }
  { unfold alexanderplatz. cbn [Geolocation.accuracy]. lra. }
  { now left. }
  set (w2 := deliver v w1 1 alexanderplatz) in *.
  rewrite Hroute1 in Hroute2. cbn [app] in Hroute2.
  destruct (deliver_appends v w2 1 north_of_alexanderplatz)
    as (Hroute3 & _ & Hstate3 & _).
  { rewrite Hgeo2, Hwatch1. now left. }
  { exact Hmap2. }
  { unfold north_of_alexanderplatz. cbn [Geolocation.accuracy]. lra. }
  { right. rewrite Hroute2.
    unfold alexanderplatz, north_of_alexanderplatz.
    cbn [last Geolocation.longitude Geolocation.latitude].
    rewrite fixes_are_apart. apply fixes_are_apart_enough. }
  split.
  - rewrite Hstate3, Hstate2. exact Hstate1.
  - rewrite Hroute3, Hroute2. reflexivity.
Qed.

(** C8, the difference.  After the same run of two fixes and a finish both
    variants are stopped, but the current distance is that of the finished
    run in [run-tracker.ts] and zero in [run-tracker.js]. *)
Lemma ts_and_js_differ_after_finish :
  getState (run TS (two_fix_run ++ [Finish 9000 9000]) (initial true [])) = stopped /\
  getState (run JS (two_fix_run ++ [Finish 9000 9000]) (initial true [])) = stopped /\
  getCurrentDistance (run JS (two_fix_run ++ [Finish 9000 9000]) (initial true [])) = 0 /\
  getCurrentDistance (run TS (two_fix_run ++ [Finish 9000 9000]) (initial true [])) >= 3 /\
  getCurrentDistance (run TS (two_fix_run ++ [Finish 9000 9000]) (initial true [])) <>
  getCurrentDistance (run JS (two_fix_run ++ [Finish 9000 9000]) (initial true [])).
Proof.
  rewrite !run_app, !run_one. cbn [step].
  pose proof (two_fix_run_route TS) as [HstateT HrouteT].
  pose proof (two_fix_run_route JS) as [HstateJ HrouteJ].
  assert (HdistJ : getCurrentDistance
                     (finishRun JS (run JS two_fix_run (initial true [])) 9000 9000) = 0).
  { unfold getCurrentDistance, MapView.getRouteCoordinates.
    rewrite finishRun_JS_route by (rewrite HstateJ; discriminate).
    reflexivity. }
  assert (HdistT : getCurrentDistance
                     (finishRun TS (run TS two_fix_run (initial true [])) 9000 9000) >= 3).
  { unfold getCurrentDistance, MapView.getRouteCoordinates.
    rewrite finishRun_TS_route, HrouteT.
    unfold calculateTotalDistance, leg, at_index.
    cbn [length Nat.ltb Nat.leb seq fold_left Nat.sub nth].
    rewrite fixes_are_apart. pose proof fixes_are_apart_enough. lra. }
  unfold getState. rewrite !finishRun_stopped.
  repeat split; try assumption.
  rewrite HdistJ. lra.
Qed.

(** The session of the run of two fixes: started at clock reading 1000,
    never paused. *)
Lemma two_fix_run_session (v : Variant) :
  startTime (tracker (run v two_fix_run (initial true []))) = Some 1000%Z /\
  pausedTime (tracker (run v two_fix_run (initial true []))) = 0%Z /\
  currentRunId (tracker (run v two_fix_run (initial true []))) =
    Some (Storage.generateId 1000 "k3x9").
Proof.
  unfold two_fix_run, run. cbn [fold_left step].
  set (w1 := startTracking (on_mapView MapView.initMap (initial true [])) 1000 "k3x9" 1000).
  pose proof (deliver_same_session v w1 1 alexanderplatz) as (Hsame1 & _).
  set (w2 := deliver v w1 1 alexanderplatz) in *.
  pose proof (deliver_same_session v w2 1 north_of_alexanderplatz) as (Hsame2 & _).
  destruct Hsame1 as (_ & _ & Hstart1 & Hpaused1 & _ & Hid1).
  destruct Hsame2 as (_ & _ & Hstart2 & Hpaused2 & _ & Hid2).
  rewrite Hstart2, Hpaused2, Hid2, Hstart1, Hpaused1, Hid1.
  repeat split.
Qed.

(** The run of two fixes has a run to save eight seconds after its start. *)
Lemma two_fix_run_saves (v : Variant) :
  getElapsedTime (run v two_fix_run (initial true [])) 9000 = 8000%Z /\
  savesRun v (run v two_fix_run (initial true [])) 9000 = true.
Proof.
  pose proof (two_fix_run_route v) as [Hstate Hroute].
  pose proof (two_fix_run_session v) as (Hstart & Hpaused & Hid).
  assert (Helapsed : getElapsedTime (run v two_fix_run (initial true [])) 9000 = 8000%Z).
  { unfold getElapsedTime. rewrite Hstate, Hstart, Hpaused. reflexivity. }
  split; [exact Helapsed |].
  unfold savesRun, hasActualData, MapView.getRouteCoordinates.
  rewrite getElapsedTime_stopWatching, stopWatching_route, stopWatching_tracker.
  rewrite Helapsed, Hroute, Hstate.
  cbn [set_watchId currentRunId startTime].
  rewrite Hid, Hstart. destruct v; reflexivity.
Qed.

(** On a storage that takes no write, a finish that has a run to save
    throws after it has ended the subscription. *)
Lemma finishRunOnStore_storage_full (v : Variant) (w : World) (i : LocalStore.Item)
    (now endNow : Z) :
  savesRun v w now = true ->
  finishRunOnStore (fun _ => LocalStore.QuotaExceededError) v w i now endNow =
  (stopWatching w, LocalStore.mkOutcome i true).
Proof.
  unfold savesRun, finishRunOnStore.
  destruct (state (tracker w)); cbn [RunState_eqb negb andb]; [discriminate | |];
    intros ->; reflexivity.
Qed.

(** C2.  After a run of two fixes, eight seconds long, [finishRun] is
    called while storage takes no write: [saveRun] throws from the second
    write, which its [catch] block makes unguarded, and [finishRun] ends
    there.  The subscription is ended, but the state is still running and
    the session variables are not reset, where the claim has the state
    stopped and the session reset whatever the sink does. *)
Lemma finishRun_stays_running_when_saveRun_throws :
  forall v : Variant,
    let w := run v two_fix_run (initial true []) in
    let finished :=
      finishRunOnStore (fun _ => LocalStore.QuotaExceededError) v w
                       LocalStore.Missing 9000 9000 in
    getState w = running /\
    MapView.getRouteCoordinates (mapView w) <> [] /\
    getElapsedTime w 9000 = 8000%Z /\
    LocalStore.threw (snd finished) = true /\
    LocalStore.item (snd finished) = LocalStore.Missing /\
    getState (fst finished) = running /\
    startTime (tracker (fst finished)) = Some 1000%Z /\
    ~ session_reset (tracker (fst finished)) /\
    Geolocation.watches (geolocation (fst finished)) = [] /\
    getState (run v (two_fix_run ++ [FinishStorageFull 9000 9000]) (initial true []))
      = running.
Proof.
  intros v w finished.
  pose proof (two_fix_run_route v) as [Hstate Hroute].
  pose proof (two_fix_run_session v) as (Hstart & _).
  pose proof (two_fix_run_saves v) as [Helapsed Hsaves].
  fold w in Hstate, Hroute, Hstart, Helapsed, Hsaves.
  assert (Hfinished : finished = (stopWatching w, LocalStore.mkOutcome LocalStore.Missing true)).
  { subst finished. now apply finishRunOnStore_storage_full. }
  assert (Hwatches : Geolocation.watches (geolocation (stopWatching w)) = []).
  { apply (stopWatching_at_most_none w).
    subst w. apply guarded_run_at_most; [| apply initial_at_most].
    cbn. repeat split; discriminate. }
  rewrite Hfinished. cbn [fst snd LocalStore.threw LocalStore.item].
  unfold getState, MapView.getRouteCoordinates.
  rewrite stopWatching_tracker. cbn [set_watchId state startTime].
  split; [exact Hstate |].
  split; [rewrite Hroute; discriminate |].
  split; [exact Helapsed |].
  split; [reflexivity |]. split; [reflexivity |].
  split; [exact Hstate |]. split; [exact Hstart |].
  split.
  { unfold session_reset. cbn [set_watchId startTime]. rewrite Hstart.
    intros [Hnone _]. discriminate Hnone. }
  split; [exact Hwatches |].
  rewrite run_app, run_one. cbn [step]. fold w.
  rewrite finishRunStorageFull_eq, Hsaves, stopWatching_state. exact Hstate.
Qed.

End VariantExamples.

Section FilterExamples.
Local Open Scope R_scope.
Import Geo.





End FilterExamples.

Section VariantAgreement.
Local Open Scope R_scope.

Lemma startTracking_agree (wT wJ : World) (idNow : Z) (rnd : string) (now : Z) :
  variants_agree wT wJ ->
  variants_agree (startTracking wT idNow rnd now) (startTracking wJ idNow rnd now).
Proof.
  open_worlds wT wJ.
  destruct sup; cbn [negb]; fields; [| tauto].
  destruct st; fields; split_tests; fields;
    agree_done.
Qed.

Lemma pauseTracking_agree (wT wJ : World) (now : Z) :
  variants_agree wT wJ ->
  variants_agree (pauseTracking wT now) (pauseTracking wJ now).
Proof.
  open_worlds wT wJ.
  destruct st; fields; try tauto.
  split_tests; fields;
    agree_done.
Qed.

Lemma finishRun_agree (wT wJ : World) (now endNow : Z) :
  has_run_id (tracker wT) ->
  variants_agree wT wJ ->
  variants_agree (finishRun TS wT now endNow) (finishRun JS wJ now endNow).
Proof.
  unfold has_run_id. intros Hid Hagree. revert Hid. revert Hagree.
  open_worlds wT wJ. unfold MapView.showHistoryRoute.
  destruct st; fields; intros Hid; try tauto;
    (assert (Hroute : rd = rdJ) by (apply Hrun; discriminate)); subst rdJ;
    (assert (Hcid : Js.truthyStr cid = true) by (apply Hid; discriminate));
    destruct wid; fields; rewrite Hcid; cbn [RunState_eqb andb];
    destruct (Js.truthy stt); cbn [negb andb]; fields;
    rewrite ?andb_true_r, ?andb_false_r;
    split_tests; fields; agree_done.
Qed.

Lemma handlePositionUpdate_agree (wT wJ : World) (p : Geolocation.Coords) :
  state (tracker wT) <> stopped ->
  variants_agree wT wJ ->
  variants_agree (handlePositionUpdate TS wT p) (handlePositionUpdate JS wJ p).
Proof.
  intros Hstate Hagree. revert Hstate. revert Hagree.
  open_worlds wT wJ. intros Hstate.
  specialize (Hrun Hstate). subst rdJ.
  unfold handlePositionUpdate, MapView.addCoordinate. fields.
  destruct (Js.gtb _ _); [agree_done |].
  destruct (_ && _); [agree_done |].
  destruct odu; fields; agree_done.
Qed.

Lemma savesRun_agree (wT wJ : World) (now : Z) :
  has_run_id (tracker wT) ->
  variants_agree wT wJ ->
  savesRun TS wT now = savesRun JS wJ now.
Proof.
  unfold has_run_id. intros Hid Hagree. revert Hid. revert Hagree.
  unfold savesRun. open_worlds wT wJ.
  destruct st; fields; intros Hid; try reflexivity;
    (assert (Hroute : rd = rdJ) by (apply Hrun; discriminate)); subst rdJ;
    (assert (Hcid : Js.truthyStr cid = true) by (apply Hid; discriminate));
    destruct wid; fields; rewrite Hcid; cbn [RunState_eqb negb andb];
    destruct (Js.truthy stt); cbn [negb andb];
    rewrite ?Z.ltb_irrefl, ?andb_true_r, ?andb_false_r; reflexivity.
Qed.

Lemma stopWatching_agree (wT wJ : World) :
  variants_agree wT wJ -> variants_agree (stopWatching wT) (stopWatching wJ).
Proof.
  open_worlds wT wJ. destruct wid; fields; agree_done.
Qed.

Lemma finishRunStorageFull_agree (wT wJ : World) (now endNow : Z) :
  has_run_id (tracker wT) ->
  variants_agree wT wJ ->
  variants_agree (finishRunStorageFull TS wT now endNow)
                 (finishRunStorageFull JS wJ now endNow).
Proof.
  intros Hid Hagree. rewrite !finishRunStorageFull_eq.
  rewrite <- (savesRun_agree wT wJ now Hid Hagree).
  destruct (savesRun TS wT now).
  - now apply stopWatching_agree.
  - now apply finishRun_agree.
Qed.

Lemma deliver_agree (wT wJ : World) (i : nat) (p : Geolocation.Coords) :
  at_most_one_subscription wT ->
  variants_agree wT wJ ->
  variants_agree (deliver TS wT i p) (deliver JS wJ i p).
Proof.
  intros Hone Hagree. unfold deliver.
  destruct Hagree as (Htr & Hgeo & Hrest) eqn:Hsaved. clear Hsaved.
  rewrite <- Hgeo.
  destruct (existsb (Nat.eqb i) (Geolocation.watches (geolocation wT))) eqn:Hactive.
  - apply handlePositionUpdate_agree; [| unfold variants_agree; tauto].
    rewrite (at_most_one_active wT i Hone Hactive). discriminate.
  - unfold variants_agree; tauto.
Qed.

Lemma step_agree (wT wJ : World) (op : Op) :
  at_most_one_subscription wT ->
  has_run_id (tracker wT) ->
  variants_agree wT wJ ->
  variants_agree (step TS wT op) (step JS wJ op).
Proof.
  intros Hone Hid Hagree.
  destruct op; cbn [step].
  - revert Hagree. open_worlds wT wJ. agree_done.
  - revert Hagree. open_worlds wT wJ. agree_done.
  - revert Hagree. open_worlds wT wJ. agree_done.
  - now apply startTracking_agree.
  - now apply pauseTracking_agree.
  - now apply finishRun_agree.
  - now apply finishRunStorageFull_agree.
  - unfold handlePlayPause, getState.
    replace (tracker wJ) with (tracker wT) by apply Hagree.
    destruct (state (tracker wT)).
    + now apply startTracking_agree.
    + now apply pauseTracking_agree.
    + now apply startTracking_agree.
  - now apply deliver_agree.
Qed.

Lemma run_agree (ops : list Op) (wT wJ : World) :
  start_guarded TS ops wT ->
  at_most_one_subscription wT ->
  has_run_id (tracker wT) ->
  variants_agree wT wJ ->
  variants_agree (run TS ops wT) (run JS ops wJ).
Proof.
  unfold run. revert wT wJ.
  induction ops as [| op ops IH]; intros wT wJ Hguard Hone Hid Hagree; cbn [fold_left].
  - exact Hagree.
  - destruct Hguard as [Hop Hrest].
    apply IH.
    + exact Hrest.
    + now apply guarded_step_at_most.
    + now apply step_has_run_id.
    + now apply step_agree.
Qed.

End VariantAgreement.

Section VariantClaims.
Local Open Scope R_scope.

(** C8, as the code has it.  With the map created first and
    [startTracking] not called directly while running, the two variants end
    every sequence of operations with the same tracker variables,
    subscriptions, saved runs and observer calls, hence the same state,
    elapsed time and last position; the current distance is the same unless
    the state is stopped, where [run-tracker.js] reports zero. *)
Theorem variants_agree_except_on_route_while_stopped :
  forall (supported : bool) (history : list Storage.Run) (ops : list Op),
    start_guarded TS (InitMap :: ops) (initial supported history) ->
    let wT := run TS (InitMap :: ops) (initial supported history) in
    let wJ := run JS (InitMap :: ops) (initial supported history) in
    (tracker wT = tracker wJ /\ geolocation wT = geolocation wJ /\
     runs wT = runs wJ /\ notified wT = notified wJ) /\
    (forall now : Z,
       getState wT = getState wJ /\
       getElapsedTime wT now = getElapsedTime wJ now /\
       getLastPosition wT = getLastPosition wJ) /\
    (getState wT <> stopped -> getCurrentDistance wT = getCurrentDistance wJ) /\
    (getState wJ = stopped -> getCurrentDistance wJ = 0).
Proof.
  intros supported history ops [_ Hguard] wT wJ.
  assert (Hagree : variants_agree wT wJ).
  { subst wT wJ. unfold run. cbn [fold_left].
    apply run_agree.
    - exact Hguard.
    - reflexivity.
    - unfold has_run_id. cbn. congruence.
    - unfold variants_agree. cbn. repeat split; auto. }
  destruct Hagree as (Htracker & Hgeo & Hruns & Hnotified & _ & _ & Hrun & Hstop).
  split; [auto |]. split; [| split].
  - intros now. unfold getState, getElapsedTime, getLastPosition.
    rewrite Htracker. auto.
  - intros Hstate. unfold getCurrentDistance, MapView.getRouteCoordinates.
    rewrite (Hrun Hstate). reflexivity.
  - intros Hstate. unfold getCurrentDistance, MapView.getRouteCoordinates.
    rewrite (Hstop Hstate). reflexivity.
Qed.

Lemma variants_agree_except_on_route_while_stopped_witness :
  start_guarded TS
    [InitMap; PlayPause 1000 "k3x9" 1000; PlayPause 1000 "k3x9" 5000;
     Start 1000 "k3x9" 9000; Finish 12000 12000]
    (initial true []) /\
  runs (run TS
          [InitMap; PlayPause 1000 "k3x9" 1000; PlayPause 1000 "k3x9" 5000;
           Start 1000 "k3x9" 9000; Finish 12000 12000]
          (initial true [])) =
  runs (run JS
          [InitMap; PlayPause 1000 "k3x9" 1000; PlayPause 1000 "k3x9" 5000;
           Start 1000 "k3x9" 9000; Finish 12000 12000]
          (initial true [])).
Proof.
  split.
  - cbn. repeat split; discriminate.
  - apply (variants_agree_except_on_route_while_stopped true []
             [PlayPause 1000 "k3x9" 1000; PlayPause 1000 "k3x9" 5000;
              Start 1000 "k3x9" 9000; Finish 12000 12000]).
    cbn. repeat split; discriminate.
Defined.

End VariantClaims.

(** * Further properties of the state machine *)

Section StoredRunFacts.

Lemma startTracking_runs (w : World) (idNow : Z) (rnd : string) (now : Z) :
  runs (startTracking w idNow rnd now) = runs w.
Proof.
  open_world w. destruct sup, st; cbn [negb]; fields; split_tests; reflexivity.
Qed.

Lemma pauseTracking_runs (w : World) (now : Z) :
  runs (pauseTracking w now) = runs w.
Proof. open_world w. destruct st; fields; split_tests; reflexivity. Qed.

Lemma truthyStr_not_null (x : option string) : Js.truthyStr x = true -> x <> None.
Proof. destruct x; [discriminate | discriminate]. Qed.

Lemma finishRun_adds_actual_run (v : Variant) (w : World) (now endNow : Z) :
  has_run_id (tracker w) ->
  runs (finishRun v w now endNow) = runs w \/
  exists r, runs (finishRun v w now endNow) = r :: runs w /\ actual_run r.
Proof.
  intros Hid.
  destruct (state (tracker w)) eqn:Hstate.
  - left. unfold finishRun. now rewrite Hstate.
  - rewrite finishRun_runs by (rewrite ?Hstate; congruence || assumption).
    destruct (0 <? length (MapView.routeData (mapView w)))%nat eqn:Hroute;
      [| now left].
    destruct (0 <? getElapsedTime w now)%Z eqn:Hdur; [| now left].
    right. eexists. split; [reflexivity |].
    unfold actual_run. cbn [Storage.coordinates Storage.duration Storage.id Storage.distance].
    repeat split.
    + intros Hnil. rewrite Hnil in Hroute. discriminate.
    + now apply Z.ltb_lt.
    + apply truthyStr_not_null, Hid. congruence.
  - rewrite finishRun_runs by (rewrite ?Hstate; congruence || assumption).
    destruct (0 <? length (MapView.routeData (mapView w)))%nat eqn:Hroute;
      [| now left].
    destruct (0 <? getElapsedTime w now)%Z eqn:Hdur; [| now left].
    right. eexists. split; [reflexivity |].
    unfold actual_run. cbn [Storage.coordinates Storage.duration Storage.id Storage.distance].
    repeat split.
    + intros Hnil. rewrite Hnil in Hroute. discriminate.
    + now apply Z.ltb_lt.
    + apply truthyStr_not_null, Hid. congruence.
Qed.

Lemma step_adds_actual_run (v : Variant) (w : World) (op : Op) :
  has_run_id (tracker w) ->
  runs (step v w op) = runs w \/
  exists r, runs (step v w op) = r :: runs w /\ actual_run r.
Proof.
  intros Hid. destruct op; cbn [step].
  - now left.
  - now left.
  - now left.
  - left. apply startTracking_runs.
  - left. apply pauseTracking_runs.
  - now apply finishRun_adds_actual_run.
  - destruct (finishRunStorageFull_cases v w now endNow) as [-> | [_ ->]].
    + now apply finishRun_adds_actual_run.
    + left. apply stopWatching_same_world.
  - left. unfold handlePlayPause.
    destruct (getState w); (apply startTracking_runs) || (apply pauseTracking_runs).
  - left. apply deliver_same_session.
Qed.

(** X5. Whatever the operations, also with finishes in which [saveRun]
    throws: the runs that [finishRun] has given to [saveRun], and that
    [saveRun] returned from, are those of this session in front of the
    earlier ones, and every run of this session has a route, a positive
    duration, an id, and as distance the distance of its route. *)
Theorem stored_runs_are_actual_and_history_is_kept :
  forall (v : Variant) (supported : bool) (history : list Storage.Run) (ops : list Op),
    exists added : list Storage.Run,
      runs (run v ops (initial supported history)) = added ++ history /\
      Forall actual_run added.
Proof.
  intros v supported history ops.
  assert (Hgen : forall w,
             has_run_id (tracker w) ->
             exists added, runs (run v ops w) = added ++ runs w /\ Forall actual_run added).
  { unfold run. induction ops as [| op ops IH]; intros w Hid; cbn [fold_left].
    - exists []. split; [reflexivity | constructor].
    - destruct (IH (step v w op) (step_has_run_id v w op Hid)) as (added & Hruns & Hall).
      destruct (step_adds_actual_run v w op Hid) as [Hsame | (r & Hadd & Hr)].
      + exists added. rewrite Hruns, Hsame. auto.
      + exists (added ++ [r]). rewrite Hruns, Hadd, <- app_assoc. split; [reflexivity |].
        apply Forall_app. split; [assumption |].
        constructor; [assumption | constructor]. }
  apply (Hgen (initial supported history)). apply initial_has_run_id.
Qed.

End StoredRunFacts.

Section TimeFacts.

Lemma truthy_pos (n : Z) : (0 < n)%Z -> Js.truthy (Some n) = true.
Proof. apply truthy_after_epoch. Qed.

Lemma time_accounted_later (last last' : Z) (t : Tracker) :
  (last <= last')%Z -> time_accounted last t -> time_accounted last' t.
Proof.
  unfold time_accounted. intros Hle [Hpt Hstate]. split; [assumption |].
  destruct (state t).
  - assumption.
  - destruct Hstate as (s & Hs & Hpos & Hsum). exists s. repeat split; auto; lia.
  - destruct Hstate as (s & p & Hs & Hp & Hspos & Hppos & Hsum & Hlast).
    exists s, p. repeat split; auto; lia.
Qed.

Lemma startTracking_time_accounted (w : World) (idNow : Z) (rnd : string) (last now : Z) :
  (0 < last)%Z -> (last <= now)%Z ->
  time_accounted last (tracker w) ->
  time_accounted now (tracker (startTracking w idNow rnd now)).
Proof.
  intros Hlast Hnow Hinv.
  destruct (Geolocation.supported (geolocation w)) eqn:Hsup.
  2:{ unfold startTracking. rewrite Hsup. cbn [negb].
      now apply (time_accounted_later last). }
  revert Hsup Hinv. open_world w. unfold time_accounted. fields.
  intros -> [Hpt Hstate]. cbn [negb].
  destruct st; fields.
  - destruct osc; fields; (split; [lia |]); exists now; repeat split; lia.
  - destruct Hstate as (s & -> & Hs & Hsum).
    destruct osc; fields; (split; [lia |]); exists s; repeat split; lia.
  - destruct Hstate as (s & p & -> & -> & Hs & Hp & Hsum & Hle).
    rewrite (truthy_pos p Hp).
    destruct osc; fields; cbn [Js.num]; (split; [lia |]); exists s; repeat split; lia.
Qed.

Lemma pauseTracking_time_accounted (w : World) (last now : Z) :
  (0 < last)%Z -> (last <= now)%Z ->
  time_accounted last (tracker w) ->
  time_accounted now (tracker (pauseTracking w now)).
Proof.
  intros Hlast Hnow Hinv.
  destruct (state (tracker w)) eqn:Hst;
    try (unfold pauseTracking; rewrite Hst; now apply (time_accounted_later last)).
  revert Hst Hinv. open_world w. unfold time_accounted. fields.
  intros -> [Hpt (s & -> & Hs & Hsum)].
  destruct wid, osc; fields; (split; [lia |]); exists s, now; repeat split; lia.
Qed.

Lemma finishRun_time_accounted (v : Variant) (w : World) (last now endNow : Z) :
  (last <= now)%Z ->
  time_accounted last (tracker w) ->
  time_accounted now (tracker (finishRun v w now endNow)).
Proof.
  intros Hnow Hinv.
  destruct (state (tracker w)) eqn:Hst;
    try (unfold finishRun; rewrite Hst; now apply (time_accounted_later last)).
  - clear Hinv Hnow. revert Hst. open_world w. unfold time_accounted. intros ->.
    destruct wid; fields; split_tests; try destruct v; fields; split; (lia || reflexivity).
  - clear Hinv Hnow. revert Hst. open_world w. unfold time_accounted. intros ->.
    destruct wid; fields; split_tests; try destruct v; fields; split; (lia || reflexivity).
Qed.

Lemma finishRunStorageFull_time_accounted (v : Variant) (w : World)
    (last now endNow : Z) :
  (last <= now)%Z ->
  time_accounted last (tracker w) ->
  time_accounted now (tracker (finishRunStorageFull v w now endNow)).
Proof.
  intros Hnow Hinv.
  destruct (finishRunStorageFull_cases v w now endNow) as [-> | [_ ->]].
  - now apply (finishRun_time_accounted v w last).
  - rewrite stopWatching_tracker. now apply (time_accounted_later last).
Qed.

Lemma time_accounted_same (last : Z) (t t' : Tracker) :
  same_session t t' -> time_accounted last t -> time_accounted last t'.
Proof.
  unfold same_session, time_accounted.
  intros (-> & _ & -> & -> & -> & _). trivial.
Qed.

Lemma run_time_accounted (v : Variant) (ops : list Op) (w : World) (last : Z) :
  (0 < last)%Z ->
  clock_nondecreasing last ops ->
  time_accounted last (tracker w) ->
  time_accounted (last_reading last ops) (tracker (run v ops w)) /\
  (last <= last_reading last ops)%Z.
Proof.
  unfold run. revert w last.
  induction ops as [| op ops IH]; intros w last Hlast Hclock Hinv;
    cbn [fold_left clock_nondecreasing last_reading] in *.
  - split; [assumption | lia].
  - destruct op; cbn [reading step] in *;
      try (apply IH; assumption).
    + destruct Hclock as [Hle Hrest].
      destruct (IH (startTracking w idNow rnd now) now) as [H1 H2];
        [lia | assumption | now apply (startTracking_time_accounted w idNow rnd last) |].
      split; [assumption | lia].
    + destruct Hclock as [Hle Hrest].
      destruct (IH (pauseTracking w now) now) as [H1 H2];
        [lia | assumption | now apply (pauseTracking_time_accounted w last) |].
      split; [assumption | lia].
    + destruct Hclock as [Hle Hrest].
      destruct (IH (finishRun v w now endNow) now) as [H1 H2];
        [lia | assumption | now apply (finishRun_time_accounted v w last) |].
      split; [assumption | lia].
    + destruct Hclock as [Hle Hrest].
      destruct (IH (finishRunStorageFull v w now endNow) now) as [H1 H2];
        [lia | assumption | now apply (finishRunStorageFull_time_accounted v w last) |].
      split; [assumption | lia].
    + destruct Hclock as [Hle Hrest].
      destruct (IH (handlePlayPause w idNow rnd now) now) as [H1 H2];
        [lia | assumption | | split; [assumption | lia]].
      unfold handlePlayPause. destruct (getState w).
      * now apply (startTracking_time_accounted w idNow rnd last).
      * now apply (pauseTracking_time_accounted w last).
      * now apply (startTracking_time_accounted w idNow rnd last).
    + apply IH; [assumption | assumption |].
      eapply time_accounted_same; [| exact Hinv].
      apply deliver_same_session.
Qed.

Lemma time_accounted_elapsed (w : World) (last now : Z) :
  (last <= now)%Z ->
  time_accounted last (tracker w) ->
  (0 <= getElapsedTime w now)%Z /\
  (0 <= pausedTime (tracker w))%Z /\
  (forall s, startTime (tracker w) = Some s -> (getElapsedTime w now <= now - s)%Z).
Proof.
  open_world w. unfold time_accounted. fields.
  intros Hnow [Hpt Hstate]. destruct st.
  - subst stt. cbn [Js.truthy negb]. repeat split; try lia. discriminate.
  - destruct Hstate as (s & -> & Hs & Hsum).
    rewrite (truthy_pos s Hs). cbn [negb RunState_eqb andb Js.num].
    repeat split; try lia. intros s' [= <-]. lia.
  - destruct Hstate as (s & p & -> & -> & Hs & Hp & Hsum & Hle).
    rewrite (truthy_pos s Hs), (truthy_pos p Hp). cbn [negb RunState_eqb andb Js.num].
    repeat split; try lia. intros s' [= <-]. lia.
Qed.

(** X6. On a clock that reads after the epoch and does not run backwards,
    the elapsed time is never negative, the paused time is never negative,
    and the elapsed time is never more than the time since the start. *)
Theorem elapsed_time_within_wall_clock :
  forall (v : Variant) (supported : bool) (history : list Storage.Run) (ops : list Op)
         (first now : Z),
    (0 < first)%Z ->
    clock_nondecreasing first ops ->
    (last_reading first ops <= now)%Z ->
    let w := run v ops (initial supported history) in
    (0 <= getElapsedTime w now)%Z /\
    (0 <= pausedTime (tracker w))%Z /\
    (forall s, startTime (tracker w) = Some s -> (getElapsedTime w now <= now - s)%Z).
Proof.
  intros v supported history ops first now Hfirst Hclock Hnow w.
  apply (time_accounted_elapsed w (last_reading first ops) now Hnow).
  apply run_time_accounted; [assumption | assumption |].
  unfold time_accounted. cbn. split; [lia | reflexivity].
Qed.

Lemma elapsed_time_within_wall_clock_witness :
  (0 < 1000)%Z /\
  clock_nondecreasing 1000
    [Start 1000 "k3x9" 1000; Pause 4000; Start 4000 "k3x9" 6000] /\
  (last_reading 1000 [Start 1000 "k3x9" 1000; Pause 4000; Start 4000 "k3x9" 6000]
   <= 9000)%Z /\
  (0 <= getElapsedTime
          (run TS [Start 1000 "k3x9" 1000; Pause 4000; Start 4000 "k3x9" 6000]
               (initial true [])) 9000)%Z.
Proof.
  assert (H1 : (0 < 1000)%Z) by lia.
  assert (H2 : clock_nondecreasing 1000
                 [Start 1000 "k3x9" 1000; Pause 4000; Start 4000 "k3x9" 6000])
    by (cbn; lia).
  assert (H3 : (last_reading 1000
                  [Start 1000 "k3x9" 1000; Pause 4000; Start 4000 "k3x9" 6000]
                <= 9000)%Z) by (cbn; lia).
  split; [exact H1 |]. split; [exact H2 |]. split; [exact H3 |].
  exact (proj1 (elapsed_time_within_wall_clock TS true [] _ 1000 9000 H1 H2 H3)).
Defined.

(** X7. While paused, on a clock that reads after the epoch, the elapsed
    time does not depend on the clock, and a resume continues from it: the
    elapsed time at the moment of the resume is the elapsed time of the
    pause. *)
Theorem paused_time_is_frozen_and_resume_continues :
  forall (v : Variant) (history : list Storage.Run) (ops : list Op),
    Forall clock_after_epoch ops ->
    let w := run v ops (initial true history) in
    getState w = paused ->
    forall (t t' : Z) (idNow : Z) (rnd : string) (now : Z),
      getElapsedTime w t = getElapsedTime w t' /\
      getElapsedTime (startTracking w idNow rnd now) now = getElapsedTime w t.
Proof.
  intros v history ops Hclock w Hpaused t t' idNow rnd now.
  assert (Htruthy : session_truthy (tracker w))
    by (apply run_session_truthy; [assumption | apply initial_session_truthy]).
  split.
  - pose proof (getElapsedTime_truthy w t Htruthy) as Ht.
    pose proof (getElapsedTime_truthy w t' Htruthy) as Ht'.
    unfold getState in Hpaused. rewrite Hpaused in Ht, Ht'.
    destruct Ht as (s & p & Hs & Hp & ->).
    destruct Ht' as (s' & p' & Hs' & Hp' & ->).
    congruence.
  - apply resume_continues_from_frozen_time; try assumption.
    subst w. apply run_supported.
Qed.

Lemma paused_time_is_frozen_and_resume_continues_witness :
  Forall clock_after_epoch [Start 1000 "k3x9" 1000; Pause 4000] /\
  getState (run TS [Start 1000 "k3x9" 1000; Pause 4000] (initial true [])) = paused /\
  getElapsedTime
    (startTracking (run TS [Start 1000 "k3x9" 1000; Pause 4000] (initial true []))
                   1000 "k3x9" 7000) 7000 =
  getElapsedTime (run TS [Start 1000 "k3x9" 1000; Pause 4000] (initial true [])) 5000.
Proof.
  assert (H1 : Forall clock_after_epoch [Start 1000 "k3x9" 1000; Pause 4000])
    by (repeat constructor; cbn; lia).
  assert (H2 : getState (run TS [Start 1000 "k3x9" 1000; Pause 4000] (initial true []))
               = paused) by reflexivity.
  split; [exact H1 |]. split; [exact H2 |].
  exact (proj2 (paused_time_is_frozen_and_resume_continues TS [] _ H1 H2
                  5000 5000 1000 "k3x9" 7000)).
Defined.

End TimeFacts.

Section ObserverFacts.

Lemma shown_state_state (log : list Notification) (s : RunState) :
  shown_state (log ++ [StateChange s]) = s.
Proof. unfold shown_state. rewrite fold_left_app. reflexivity. Qed.

Lemma shown_state_distance (log : list Notification) (d : R) :
  shown_state (log ++ [DistanceUpdate d]) = shown_state log.
Proof. unfold shown_state. rewrite fold_left_app. reflexivity. Qed.

Lemma startTracking_shown (w : World) (idNow : Z) (rnd : string) (now : Z) :
  onStateChange (tracker w) = true ->
  shown_state (notified w) = state (tracker w) ->
  onStateChange (tracker (startTracking w idNow rnd now)) = true /\
  shown_state (notified (startTracking w idNow rnd now)) =
    state (tracker (startTracking w idNow rnd now)).
Proof.
  open_world w. intros -> Hshown.
  destruct sup; cbn [negb]; fields; [| auto].
  destruct st; fields; split_tests; try discriminate;
    rewrite ?shown_state_state; auto.
Qed.

Lemma pauseTracking_shown (w : World) (now : Z) :
  onStateChange (tracker w) = true ->
  shown_state (notified w) = state (tracker w) ->
  onStateChange (tracker (pauseTracking w now)) = true /\
  shown_state (notified (pauseTracking w now)) = state (tracker (pauseTracking w now)).
Proof.
  open_world w. intros -> Hshown.
  destruct st; fields; auto.
  destruct wid; fields; rewrite shown_state_state; auto.
Qed.

Lemma finishRun_shown (v : Variant) (w : World) (now endNow : Z) :
  onStateChange (tracker w) = true ->
  shown_state (notified w) = state (tracker w) ->
  onStateChange (tracker (finishRun v w now endNow)) = true /\
  shown_state (notified (finishRun v w now endNow)) =
    state (tracker (finishRun v w now endNow)).
Proof.
  open_world w. intros -> Hshown.
  destruct st; fields; auto;
    destruct wid; fields; split_tests; try destruct v; fields; try discriminate;
    rewrite ?shown_state_state; auto.
Qed.

Lemma finishRunStorageFull_shown (v : Variant) (w : World) (now endNow : Z) :
  onStateChange (tracker w) = true ->
  shown_state (notified w) = state (tracker w) ->
  onStateChange (tracker (finishRunStorageFull v w now endNow)) = true /\
  shown_state (notified (finishRunStorageFull v w now endNow)) =
    state (tracker (finishRunStorageFull v w now endNow)).
Proof.
  intros Hobs Hshown.
  destruct (finishRunStorageFull_cases v w now endNow) as [-> | [_ ->]].
  - now apply finishRun_shown.
  - rewrite stopWatching_tracker.
    destruct (stopWatching_same_world w) as (_ & _ & -> & _). auto.
Qed.

Lemma handlePositionUpdate_shown (v : Variant) (w : World) (p : Geolocation.Coords) :
  onStateChange (tracker (handlePositionUpdate v w p)) = onStateChange (tracker w) /\
  shown_state (notified (handlePositionUpdate v w p)) = shown_state (notified w) /\
  state (tracker (handlePositionUpdate v w p)) = state (tracker w).
Proof.
  unfold handlePositionUpdate.
  destruct (Js.gtb _ _); [auto |].
  destruct (_ && _); [auto |].
  fields. destruct (MapView.addCoordinate _ _ _ _); [| auto].
  destruct (onDistanceUpdate (tracker w)) eqn:Hobs; fields; rewrite ?Hobs; fields;
    rewrite ?shown_state_distance; auto.
Qed.

Lemma step_shown (v : Variant) (w : World) (op : Op) :
  onStateChange (tracker w) = true ->
  shown_state (notified w) = state (tracker w) ->
  onStateChange (tracker (step v w op)) = true /\
  shown_state (notified (step v w op)) = state (tracker (step v w op)).
Proof.
  intros Hobs Hshown. destruct op; cbn [step].
  - unfold setOnDistanceUpdate. fields. auto.
  - unfold setOnStateChange. fields. auto.
  - fields. auto.
  - now apply startTracking_shown.
  - now apply pauseTracking_shown.
  - now apply finishRun_shown.
  - now apply finishRunStorageFull_shown.
  - unfold handlePlayPause.
    destruct (getState w);
      (now apply startTracking_shown) || (now apply pauseTracking_shown).
  - unfold deliver. destruct (existsb _ _); [| auto].
    destruct (handlePositionUpdate_shown v w position) as (-> & -> & ->). auto.
Qed.

(** X8. When the state observer is registered before anything else, after
    every sequence of operations the state it was last called with is the
    state of the tracker. *)
Theorem state_observer_is_up_to_date :
  forall (v : Variant) (supported : bool) (history : list Storage.Run) (ops : list Op),
    shown_state (notified (run v (SetOnStateChange :: ops) (initial supported history))) =
    getState (run v (SetOnStateChange :: ops) (initial supported history)).
Proof.
  intros v supported history ops. unfold run. cbn [fold_left step].
  assert (Hgen : forall w,
             onStateChange (tracker w) = true ->
             shown_state (notified w) = state (tracker w) ->
             shown_state (notified (fold_left (step v) ops w)) =
             state (tracker (fold_left (step v) ops w))).
  { induction ops as [| op ops IH]; intros w Hobs Hshown; cbn [fold_left].
    - exact Hshown.
    - destruct (step_shown v w op Hobs Hshown) as [Hobs' Hshown'].
      now apply IH. }
  apply Hgen; reflexivity.
Qed.

End ObserverFacts.

Section IdempotenceFacts.

Lemma pauseTracking_not_running (w : World) (now : Z) :
  state (tracker (pauseTracking w now)) <> running.
Proof.
  open_world w. destruct st; fields; try discriminate.
  destruct wid, osc; fields; discriminate.
Qed.

(** X9. Pausing twice is pausing once, whatever the clock reads.  A finish
    from which [finishRun] has returned is not repeated by a second call:
    whatever storage does then, the second call changes nothing.  (After a
    finish that stopped short because [saveRun] threw, the next call does
    finish again.) *)
Theorem pause_and_finish_are_idempotent :
  (forall (w : World) (now now' : Z),
     pauseTracking (pauseTracking w now) now' = pauseTracking w now) /\
  (forall (setItem setItem' : list Storage.Run -> LocalStore.Write) (v : Variant)
          (w : World) (i : LocalStore.Item) (now endNow now' endNow' : Z),
     let first := finishRunOnStore setItem v w i now endNow in
     LocalStore.threw (snd first) = false ->
     finishRunOnStore setItem' v (fst first) (LocalStore.item (snd first)) now' endNow' =
     (fst first, LocalStore.mkOutcome (LocalStore.item (snd first)) false)).
Proof.
  split.
  - intros w now now'.
    pose proof (pauseTracking_not_running w now) as Hstate.
    unfold pauseTracking at 1.
    destruct (state (tracker (pauseTracking w now))); congruence.
  - intros setItem setItem' v w i now endNow now' endNow' first Hreturned.
    pose proof (finishRunOnStore_world setItem v w i now endNow) as Hworld.
    fold first in Hworld. rewrite Hreturned in Hworld.
    pose proof (finishRun_stopped v w now endNow) as Hstate.
    rewrite <- Hworld in Hstate.
    unfold finishRunOnStore at 1. rewrite Hstate. reflexivity.
Qed.

End IdempotenceFacts.

Section HandleFacts.

Lemma remove_NoDup (i : nat) (l : list nat) :
  NoDup l -> NoDup (remove Nat.eq_dec i l).
Proof.
  induction l as [| a l IH]; intros Hnd; [constructor |].
  inversion Hnd as [| ? ? Hnotin Hrest]; subst.
  cbn [remove]. destruct (Nat.eq_dec i a); [now apply IH |].
  constructor; [| now apply IH].
  intros Hin. apply in_remove in Hin. tauto.
Qed.

Lemma remove_Forall (P : nat -> Prop) (i : nat) (l : list nat) :
  Forall P l -> Forall P (remove Nat.eq_dec i l).
Proof.
  rewrite !Forall_forall. intros Hall x Hin.
  apply in_remove in Hin. apply Hall. tauto.
Qed.

Lemma fresh_NoDup (n : nat) (l : list nat) :
  NoDup l -> Forall (fun i => i < n) l -> NoDup (l ++ [n]).
Proof.
  induction l as [| a l IH]; intros Hnd Hall.
  - repeat constructor. intros [].
  - inversion Hnd as [| ? ? Hnotin Hrest]; subst.
    inversion Hall as [| ? ? Ha Hl]; subst.
    cbn [app]. constructor; [| now apply IH].
    intros Hin. apply in_app_or in Hin. destruct Hin as [Hin | [<- | []]].
    + contradiction.
    + lia.
Qed.

Lemma fresh_Forall (n : nat) (l : list nat) :
  Forall (fun i => i < n) l -> Forall (fun i => i < S n) (l ++ [n]).
Proof.
  intros Hall. apply Forall_app. split.
  - eapply Forall_impl; [| exact Hall]. intros; cbn in *; lia.
  - repeat constructor.
Qed.

Lemma startTracking_handles (w : World) (idNow : Z) (rnd : string) (now : Z) :
  handles_consistent w -> handles_consistent (startTracking w idNow rnd now).
Proof.
  open_world w. unfold handles_consistent. fields.
  intros (Hheld & Hnd & Hall).
  destruct sup; cbn [negb]; fields; [| auto].
  assert (Hin : In nid (ws ++ [nid])) by (apply in_or_app; right; now left).
  pose proof (fresh_NoDup nid ws Hnd Hall).
  pose proof (fresh_Forall nid ws Hall).
  destruct st; fields; split_tests; fields; eauto.
Qed.

Lemma pauseTracking_handles (w : World) (now : Z) :
  handles_consistent w -> handles_consistent (pauseTracking w now).
Proof.
  open_world w. unfold handles_consistent. fields.
  intros (Hheld & Hnd & Hall).
  destruct st; fields; auto.
  destruct wid, osc; fields; auto using remove_NoDup, remove_Forall.
Qed.

Lemma finishRun_handles (v : Variant) (w : World) (now endNow : Z) :
  handles_consistent w -> handles_consistent (finishRun v w now endNow).
Proof.
  open_world w. unfold handles_consistent. fields.
  intros (Hheld & Hnd & Hall).
  destruct st; fields; auto;
    destruct wid; fields; split_tests; try destruct v; fields;
    auto using remove_NoDup, remove_Forall.
Qed.

Lemma stopWatching_handles (w : World) :
  handles_consistent w -> handles_consistent (stopWatching w).
Proof.
  unfold handles_consistent.
  rewrite stopWatching_watchId, stopWatching_watches.
  destruct (stopWatching_same_world w) as (_ & _ & _ & _ & ->).
  intros (_ & Hnd & Hall).
  destruct (watchId (tracker w)); auto using remove_NoDup, remove_Forall.
Qed.

Lemma step_handles (v : Variant) (w : World) (op : Op) :
  handles_consistent w -> handles_consistent (step v w op).
Proof.
  intros Hinv. destruct op; cbn [step].
  - exact Hinv.
  - exact Hinv.
  - exact Hinv.
  - now apply startTracking_handles.
  - now apply pauseTracking_handles.
  - now apply finishRun_handles.
  - destruct (finishRunStorageFull_cases v w now endNow) as [-> | [_ ->]].
    + now apply finishRun_handles.
    + now apply stopWatching_handles.
  - unfold handlePlayPause.
    destruct (getState w);
      (now apply startTracking_handles) || (now apply pauseTracking_handles).
  - destruct (deliver_same_session v w watch position) as ((Hst & Hwid & _) & Hgeo & _).
    unfold handles_consistent. rewrite Hst, Hwid, Hgeo. exact Hinv.
Qed.

Lemma run_handles (v : Variant) (ops : list Op) (w : World) :
  handles_consistent w -> handles_consistent (run v ops w).
Proof.
  unfold run. revert w.
  induction ops as [| op ops IH]; intros w Hinv; cbn [fold_left]; [exact Hinv |].
  apply IH. now apply step_handles.
Qed.

Lemma pauseTracking_cancels (w : World) (now : Z) (i : nat) :
  state (tracker w) = running ->
  watchId (tracker w) = Some i ->
  ~ In i (Geolocation.watches (geolocation (pauseTracking w now))).
Proof.
  open_world w. intros -> ->.
  destruct osc; fields; apply remove_In.
Qed.

Lemma finishRun_cancels (v : Variant) (w : World) (now endNow : Z) (i : nat) :
  state (tracker w) = running ->
  watchId (tracker w) = Some i ->
  ~ In i (Geolocation.watches (geolocation (finishRun v w now endNow))).
Proof.
  open_world w. intros -> ->.
  split_tests; try destruct v; fields; apply remove_In.
Qed.

Lemma finishRunStorageFull_cancels (v : Variant) (w : World) (now endNow : Z) (i : nat) :
  state (tracker w) = running ->
  watchId (tracker w) = Some i ->
  ~ In i (Geolocation.watches (geolocation (finishRunStorageFull v w now endNow))).
Proof.
  intros Hstate Hheld.
  destruct (finishRunStorageFull_cases v w now endNow) as [-> | [_ ->]].
  - now apply finishRun_cancels.
  - rewrite stopWatching_watches, Hheld. apply remove_In.
Qed.

(** X10. Whatever the operations, also with [startTracking] called while
    running and with finishes in which [saveRun] throws: the tracker holds
    a handle only while running, the handle it holds is active, and no
    handle is active twice; a pause or a finish ends the subscription whose
    handle the tracker holds, a finish also when [saveRun] then throws. *)
Theorem tracker_handle_is_active_and_cancelled :
  forall (v : Variant) (supported : bool) (history : list Storage.Run) (ops : list Op),
    let w := run v ops (initial supported history) in
    handles_consistent w /\
    (forall (i : nat) (now endNow : Z),
       watchId (tracker w) = Some i ->
       ~ In i (Geolocation.watches (geolocation (pauseTracking w now))) /\
       ~ In i (Geolocation.watches (geolocation (finishRun v w now endNow))) /\
       ~ In i (Geolocation.watches (geolocation (finishRunStorageFull v w now endNow)))).
Proof.
  intros v supported history ops w.
  assert (Hinv : handles_consistent w).
  { apply run_handles. unfold handles_consistent. cbn.
    repeat split; constructor. }
  split; [exact Hinv |].
  intros i now endNow Hheld.
  assert (Hrunning : state (tracker w) = running).
  { destruct Hinv as [Hstate _]. rewrite Hheld in Hstate. tauto. }
  split; [now apply pauseTracking_cancels |].
  split; [now apply finishRun_cancels | now apply finishRunStorageFull_cancels].
Qed.

End HandleFacts.

Section RouteInvariantFacts.
Local Open Scope R_scope.
Import Geo.

Lemma route_end_app (r : list Coordinate) (lng lat : R) :
  route_end (r ++ [(lng, lat)]) = Some (mkLngLat lng lat).
Proof. unfold route_end. rewrite rev_app_distr. reflexivity. Qed.

Lemma finishRun_map (v : Variant) (w : World) (now endNow : Z) :
  MapView.map (mapView w) = true ->
  MapView.map (mapView (finishRun v w now endNow)) = true.
Proof.
  open_world w. unfold MapView.showHistoryRoute. intros ->.
  destruct st; fields; split_tests; try destruct v; fields; split_tests; reflexivity.
Qed.

Lemma step_map (v : Variant) (w : World) (op : Op) :
  MapView.map (mapView w) = true -> MapView.map (mapView (step v w op)) = true.
Proof.
  destruct op; cbn [step]; intros Hmap.
  - exact Hmap.
  - exact Hmap.
  - reflexivity.
  - revert Hmap. open_world w. intros ->.
    destruct sup, st; cbn [negb]; fields; split_tests; reflexivity.
  - revert Hmap. open_world w. intros ->.
    destruct st; fields; split_tests; reflexivity.
  - now apply finishRun_map.
  - destruct (finishRunStorageFull_cases v w now endNow) as [-> | [_ ->]].
    + now apply finishRun_map.
    + now destruct (stopWatching_same_world w) as (-> & _).
  - revert Hmap. open_world w. intros ->.
    destruct sup, st; cbn [negb]; fields; split_tests; reflexivity.
  - unfold deliver. destruct (existsb _ _); [| exact Hmap].
    now apply handlePositionUpdate_map.
Qed.

Lemma startTracking_position (w : World) (idNow : Z) (rnd : string) (now : Z) :
  state (tracker w) <> running ->
  position_matches_route w ->
  position_matches_route (startTracking w idNow rnd now).
Proof.
  open_world w. unfold position_matches_route. fields.
  intros Hstate Hinv.
  destruct sup; cbn [negb]; fields; [| exact Hinv].
  destruct st; fields; try congruence; split_tests; fields; auto.
Qed.

Lemma pauseTracking_position (w : World) (now : Z) :
  position_matches_route w -> position_matches_route (pauseTracking w now).
Proof.
  open_world w. unfold position_matches_route. fields.
  intros Hinv. destruct st; fields; auto.
  destruct wid, osc; fields; auto.
Qed.

Lemma finishRun_position (v : Variant) (w : World) (now endNow : Z) :
  position_matches_route w -> position_matches_route (finishRun v w now endNow).
Proof.
  unfold position_matches_route. intros Hinv.
  destruct (state (tracker w)) eqn:Hst.
  - unfold finishRun. rewrite Hst, Hst. exact Hinv.
  - rewrite finishRun_stopped. apply finishRun_session_reset. congruence.
  - rewrite finishRun_stopped. apply finishRun_session_reset. congruence.
Qed.

Lemma finishRunStorageFull_position (v : Variant) (w : World) (now endNow : Z) :
  position_matches_route w ->
  position_matches_route (finishRunStorageFull v w now endNow).
Proof.
  intros Hinv.
  destruct (finishRunStorageFull_cases v w now endNow) as [-> | [_ ->]].
  - now apply finishRun_position.
  - unfold position_matches_route in *.
    rewrite stopWatching_tracker.
    now destruct (stopWatching_same_world w) as (-> & _).
Qed.

Lemma handlePositionUpdate_position (v : Variant) (w : World) (p : Geolocation.Coords) :
  MapView.map (mapView w) = true ->
  state (tracker w) = running ->
  position_matches_route w ->
  position_matches_route (handlePositionUpdate v w p).
Proof.
  intros Hmap Hstate Hinv.
  unfold handlePositionUpdate.
  destruct (Js.gtb _ _); [exact Hinv |].
  destruct (_ && _); [exact Hinv |].
  unfold position_matches_route, MapView.addCoordinate in *. fields.
  destruct v; rewrite Hmap;
    destruct (onDistanceUpdate (tracker w)) eqn:Hobs;
    fields; rewrite ?Hobs; fields; rewrite Hstate;
    now rewrite route_end_app.
Qed.

Lemma guarded_step_position (v : Variant) (w : World) (op : Op) :
  match op with Start _ _ _ => getState w <> running | _ => True end ->
  MapView.map (mapView w) = true ->
  at_most_one_subscription w ->
  position_matches_route w ->
  position_matches_route (step v w op).
Proof.
  destruct op; cbn [step]; intros Hguard Hmap Hone Hinv.
  - exact Hinv.
  - exact Hinv.
  - exact Hinv.
  - now apply startTracking_position.
  - now apply pauseTracking_position.
  - now apply finishRun_position.
  - now apply finishRunStorageFull_position.
  - unfold handlePlayPause, getState.
    destruct (state (tracker w)) eqn:Hstate.
    + apply startTracking_position; [congruence | assumption].
    + now apply pauseTracking_position.
    + apply startTracking_position; [congruence | assumption].
  - unfold deliver.
    destruct (existsb _ _) eqn:Hactive; [| exact Hinv].
    apply handlePositionUpdate_position; try assumption.
    exact (at_most_one_active w watch Hone Hactive).
Qed.

(** X11. With the map created first and [startTracking] not called directly
    while running, after every sequence of operations the last position
    that the tracker reports is the last coordinate of the route while
    running or paused, and there is none while stopped. *)
Theorem last_position_is_end_of_route :
  forall (v : Variant) (supported : bool) (history : list Storage.Run) (ops : list Op),
    start_guarded v (InitMap :: ops) (initial supported history) ->
    position_matches_route (run v (InitMap :: ops) (initial supported history)).
Proof.
  intros v supported history ops [_ Hguard]. unfold run. cbn [fold_left].
  assert (Hgen : forall w,
             start_guarded v ops w ->
             MapView.map (mapView w) = true ->
             at_most_one_subscription w ->
             position_matches_route w ->
             position_matches_route (fold_left (step v) ops w)).
  { clear Hguard. induction ops as [| op ops IH];
      intros w Hguard Hmap Hone Hinv; cbn [fold_left]; [exact Hinv |].
    destruct Hguard as [Hop Hrest].
    apply IH.
    - exact Hrest.
    - now apply step_map.
    - now apply guarded_step_at_most.
    - now apply guarded_step_position. }
  apply Hgen.
  - exact Hguard.
  - reflexivity.
  - reflexivity.
  - reflexivity.
Qed.

Lemma last_position_is_end_of_route_witness :
  start_guarded TS
    [InitMap; PlayPause 1000 "k3x9" 1000; PlayPause 1000 "k3x9" 5000;
     Start 1000 "k3x9" 9000]
    (initial true []) /\
  position_matches_route
    (run TS
       [InitMap; PlayPause 1000 "k3x9" 1000; PlayPause 1000 "k3x9" 5000;
        Start 1000 "k3x9" 9000]
       (initial true [])).
Proof.
  assert (H : start_guarded TS
                [InitMap; PlayPause 1000 "k3x9" 1000; PlayPause 1000 "k3x9" 5000;
                 Start 1000 "k3x9" 9000]
                (initial true [])).
  { cbn. repeat split; discriminate. }
  split; [exact H |].
  exact (last_position_is_end_of_route TS true [] _ H).
Defined.

End RouteInvariantFacts.

Section LegFacts.
Local Open Scope R_scope.
Import Geo.





End LegFacts.

Section HistoryRouteFacts.

Lemma finishRun_TS_history (w : World) (now endNow : Z) :
  MapView.map (mapView w) = true ->
  has_run_id (tracker w) ->
  MapView.historyRouteData (mapView (finishRun TS w now endNow)) =
  if negb (RunState_eqb (state (tracker w)) stopped) &&
     (0 <? length (MapView.routeData (mapView w)))%nat && (0 <? getElapsedTime w now)%Z
  then MapView.routeData (mapView w)
  else MapView.historyRouteData (mapView w).
Proof.
  unfold has_run_id. intros Hmap Hid. revert Hmap Hid.
  open_world w. unfold MapView.showHistoryRoute. intros -> Hid.
  destruct st; cbn [RunState_eqb negb andb]; fields; [reflexivity | |];
    (assert (Hcid : Js.truthyStr cid = true) by (apply Hid; discriminate));
    destruct wid; fields; rewrite Hcid; cbn [RunState_eqb andb];
    destruct (Js.truthy stt); cbn [negb andb orb]; fields;
    rewrite ?andb_true_r, ?andb_false_r;
    destruct rd; cbn [length Nat.ltb Nat.leb Nat.eqb andb]; fields;
    split_tests; fields; try reflexivity; try discriminate.
Qed.

Lemma run_map (v : Variant) (ops : list Op) (w : World) :
  MapView.map (mapView w) = true -> MapView.map (mapView (run v ops w)) = true.
Proof.
  unfold run. revert w.
  induction ops as [| op ops IH]; intros w Hmap; cbn [fold_left]; [exact Hmap |].
  apply IH. now apply step_map.
Qed.

(** A storage that takes every write never makes [finishRun] throw. *)
Lemma finishRunOnStore_written (v : Variant) (w : World) (i : LocalStore.Item)
    (now endNow : Z) :
  LocalStore.threw
    (snd (finishRunOnStore (fun _ => LocalStore.Written) v w i now endNow)) = false.
Proof.
  unfold finishRunOnStore.
  destruct (state (tracker w)); [reflexivity | |];
    (destruct (hasActualData _ _ _ _); reflexivity).
Qed.

(** X13. In [run-tracker.ts], on a reachable world with a map, whatever
    storage does: a finish that calls [saveRun] (the state is not stopped,
    the route is not empty and the duration is positive) and gets control
    back shows the route of that run as history route; every other finish
    leaves the history route as it was, also the one in which [saveRun]
    throws; and the active route stays as it is. *)
Theorem ts_finish_shows_the_stored_route :
  forall (setItem : list Storage.Run -> LocalStore.Write) (supported : bool)
         (history : list Storage.Run) (ops : list Op) (i : LocalStore.Item)
         (now endNow : Z),
    let w := run TS ops (initial supported history) in
    let finished := finishRunOnStore setItem TS w i now endNow in
    let w' := fst finished in
    MapView.map (mapView w) = true ->
    (LocalStore.threw (snd finished) = false ->
     getState w <> stopped ->
     MapView.getRouteCoordinates (mapView w) <> [] ->
     (0 < getElapsedTime w now)%Z ->
     MapView.historyRouteData (mapView w') = MapView.getRouteCoordinates (mapView w)) /\
    (LocalStore.threw (snd finished) = true \/ getState w = stopped \/
     MapView.getRouteCoordinates (mapView w) = [] \/ (getElapsedTime w now <= 0)%Z ->
     MapView.historyRouteData (mapView w') = MapView.historyRouteData (mapView w)) /\
    MapView.getRouteCoordinates (mapView w') = MapView.getRouteCoordinates (mapView w).
Proof.
  intros setItem supported history ops i now endNow w finished w' Hmap.
  assert (Hid : has_run_id (tracker w))
    by (apply run_has_run_id, initial_has_run_id).
  pose proof (finishRunOnStore_world setItem TS w i now endNow) as Hworld.
  fold finished in Hworld. fold w' in Hworld.
  pose proof (finishRun_TS_history w now endNow Hmap Hid) as Hhistory.
  unfold getState, MapView.getRouteCoordinates.
  split; [| split].
  - intros Hreturned Hstate Hroute Hpositive.
    rewrite Hreturned in Hworld. rewrite Hworld, Hhistory.
    replace (RunState_eqb (state (tracker w)) stopped) with false
      by (destruct (state (tracker w)); [congruence | reflexivity ..]).
    replace (0 <? length (MapView.routeData (mapView w)))%nat with true
      by (symmetry; apply Nat.ltb_lt;
          destruct (MapView.routeData (mapView w)); [congruence | simpl; lia]).
    replace (0 <? getElapsedTime w now)%Z with true by (symmetry; now apply Z.ltb_lt).
    reflexivity.
  - intros Hnone. rewrite Hworld.
    destruct (LocalStore.threw (snd finished)).
    + now destruct (stopWatching_same_world w) as (-> & _).
    + rewrite Hhistory.
      destruct Hnone as [Hthrew | [Hstate | [Hroute | Hzero]]].
      * discriminate.
      * rewrite Hstate. reflexivity.
      * rewrite Hroute. cbn [length Nat.ltb Nat.leb]. now rewrite andb_false_r.
      * replace (0 <? getElapsedTime w now)%Z with false
          by (symmetry; now apply Z.ltb_ge).
        now rewrite andb_false_r.
  - subst w' finished. apply finishRunOnStore_route.
Qed.

Lemma ts_finish_shows_the_stored_route_witness :
  MapView.map (mapView (run TS two_fix_run (initial true []))) = true /\
  MapView.historyRouteData
    (mapView
       (fst (finishRunOnStore (fun _ => LocalStore.Written) TS
               (run TS two_fix_run (initial true [])) LocalStore.Missing 9000 9000)))
  = MapView.getRouteCoordinates (mapView (run TS two_fix_run (initial true []))).
Proof.
  assert (Hmap : MapView.map (mapView (run TS two_fix_run (initial true []))) = true).
  { unfold two_fix_run. change (run TS (InitMap :: ?ops) ?w)
      with (run TS ops (on_mapView MapView.initMap w)).
    now apply run_map. }
  pose proof (two_fix_run_route TS) as [Hstate Hroute].
  pose proof (two_fix_run_saves TS) as [Helapsed _].
  split; [exact Hmap |].
  apply (proj1 (ts_finish_shows_the_stored_route
                  (fun _ => LocalStore.Written) true [] two_fix_run
                  LocalStore.Missing 9000 9000 Hmap)).
  - apply finishRunOnStore_written.
  - unfold getState. rewrite Hstate. discriminate.
  - unfold MapView.getRouteCoordinates. rewrite Hroute. discriminate.
  - rewrite Helapsed. lia.
Defined.

End HistoryRouteFacts.

(** * Properties of the display of durations *)

Section UnitsFacts.
Local Open Scope Z_scope.

Lemma pad_two_digits (n : Z) : 0 <= n < 100 -> Units.pad n = two_digits n.
Proof.
  intros Hn.
  assert (Hall : forallb (fun k => String.eqb (Units.pad (Z.of_nat k))
                                              (two_digits (Z.of_nat k)))
                         (seq 0 100) = true) by (vm_compute; reflexivity).
  rewrite forallb_forall in Hall.
  specialize (Hall (Z.to_nat n)).
  rewrite Z2Nat.id in Hall by lia.
  apply String.eqb_eq. apply Hall. apply in_seq. lia.
Qed.

(** X14. For a duration from 0 to just below 100 hours, [formatDuration]
    gives eight characters: two digits of whole hours, a colon, two digits
    of the minutes within the hour, a colon, and two digits of the seconds
    within the minute. *)
Theorem formatDuration_below_100_hours :
  forall ms : Z,
    0 <= ms < 360000000 ->
    Units.formatDuration ms =
      (two_digits (ms / 3600000) ++ ":" ++
       two_digits ((ms / 60000) mod 60) ++ ":" ++
       two_digits ((ms / 1000) mod 60))%string /\
    String.length (Units.formatDuration ms) = 8%nat.
Proof.
  intros ms Hms.
  assert (Hform : Units.formatDuration ms =
                  (two_digits (ms / 3600000) ++ ":" ++
                   two_digits ((ms / 60000) mod 60) ++ ":" ++
                   two_digits ((ms / 1000) mod 60))%string).
  { unfold Units.formatDuration.
    assert (Ht : 0 <= ms / 1000 < 360000) by (split; [apply Z.div_pos | apply Z.div_lt_upper_bound]; lia).
    rewrite !Z.rem_mod_nonneg by lia.
    assert (Hh : ms / 1000 / 3600 = ms / 3600000) by (rewrite Z.div_div by lia; reflexivity).
    assert (Hm : (ms / 1000) mod 3600 / 60 = (ms / 60000) mod 60).
    { replace (ms / 60000) with (ms / 1000 / 60) by (rewrite Z.div_div by lia; reflexivity).
      generalize (ms / 1000). intros t.
      pose proof (Z.div_mod t 3600 ltac:(lia)).
      pose proof (Z.mod_pos_bound t 3600 ltac:(lia)).
      pose proof (Z.div_mod t 60 ltac:(lia)).
      pose proof (Z.mod_pos_bound t 60 ltac:(lia)).
      pose proof (Z.div_mod (t / 60) 60 ltac:(lia)).
      pose proof (Z.mod_pos_bound (t / 60) 60 ltac:(lia)).
      pose proof (Z.div_mod (t mod 3600) 60 ltac:(lia)).
      pose proof (Z.mod_pos_bound (t mod 3600) 60 ltac:(lia)).
      assert (t / 60 / 60 = t / 3600) by (rewrite Z.div_div by lia; reflexivity).
      lia. }
    rewrite Hh, Hm.
    assert (Hhours : 0 <= ms / 3600000 < 100)
      by (split; [apply Z.div_pos | apply Z.div_lt_upper_bound]; lia).
    assert (Hminutes : 0 <= (ms / 60000) mod 60 < 100)
      by (pose proof (Z.mod_pos_bound (ms / 60000) 60); lia).
    assert (Hseconds : 0 <= (ms / 1000) mod 60 < 100)
      by (pose proof (Z.mod_pos_bound (ms / 1000) 60); lia).
    rewrite (pad_two_digits _ Hhours), (pad_two_digits _ Hminutes),
      (pad_two_digits _ Hseconds).
    reflexivity. }
  split; [exact Hform |].
  rewrite Hform. reflexivity.
Qed.

Lemma formatDuration_below_100_hours_witness :
  0 <= 3723004 < 360000000 /\ Units.formatDuration 3723004 = "01:02:03"%string.
Proof.
  assert (H : 0 <= 3723004 < 360000000) by lia.
  split; [exact H |].
  exact (proj1 (formatDuration_below_100_hours 3723004 H)).
Defined.

(** A negative duration is not clamped: every field carries its sign. *)
Example formatDuration_negative :
  Units.formatDuration (-1) = "-1:-1:-1"%string /\
  Units.formatDuration (-3600000) = "-1:00:00"%string.
Proof. split; reflexivity. Qed.

(** From 100 hours on the hours take the digits they need. *)
Example formatDuration_100_hours :
  Units.formatDuration 360000000 = "100:00:00"%string.
Proof. reflexivity. Qed.

End UnitsFacts.

(** * Properties of the storage on [localStorage] *)

Section LocalStoreFacts.
Import LocalStore.

Variable setItem : list Storage.Run -> Write.

Lemma hasId_true (id : string) (r : Storage.Run) :
  hasId id r = true <-> Storage.id r = Some id.
Proof.
  unfold hasId. destruct (Storage.id r) as [s |].
  - rewrite String.eqb_eq. split; [intros ->; reflexivity | intros [= ->]; reflexivity].
  - split; discriminate.
Qed.

Lemma hasId_other (id id' : string) (r : Storage.Run) :
  id' <> id -> hasId id' r = true -> hasId id r = false.
Proof.
  intros Hne Hid'. apply hasId_true in Hid'.
  destruct (hasId id r) eqn:Hid; [| reflexivity].
  apply hasId_true in Hid. congruence.
Qed.

Lemma find_filter_same (A : Type) (f g : A -> bool) (l : list A) :
  (forall x, f x = true -> g x = true) ->
  find f (filter g l) = find f l.
Proof.
  intros Hfg. induction l as [| a l IH]; [reflexivity |].
  cbn [filter find]. destruct (f a) eqn:Hfa.
  - rewrite (Hfg a Hfa). cbn [find]. now rewrite Hfa.
  - destruct (g a); cbn [find]; rewrite ?Hfa; exact IH.
Qed.

Lemma find_filter_none (A : Type) (f : A -> bool) (l : list A) :
  find f (filter (fun x => negb (f x)) l) = None.
Proof.
  induction l as [| a l IH]; [reflexivity |].
  cbn [filter]. destruct (f a) eqn:Hfa; cbn [negb find]; rewrite ?Hfa; exact IH.
Qed.

Lemma filter_none_same (A : Type) (f : A -> bool) (l : list A) :
  find f l = None -> filter (fun x => negb (f x)) l = l.
Proof.
  induction l as [| a l IH]; [reflexivity |].
  cbn [find filter]. destruct (f a); [discriminate |].
  intros Hnone. cbn [negb]. now rewrite IH.
Qed.

Lemma saveRun_threw_unchanged (run : Storage.Run) (i : Item) :
  threw (saveRun setItem run i) = true -> item (saveRun setItem run i) = i.
Proof.
  unfold saveRun.
  destruct (setItem (run :: getRuns i)); [discriminate | | discriminate].
  destruct (setItem (firstn 50 (run :: getRuns i))); [discriminate | reflexivity ..].
Qed.

(** X15. [saveRun] writes the list with the new run in front.  When it
    returns, either that write failed with an error other than
    [QuotaExceededError] and storage is as it was, or the new run is first
    in storage, where a lookup by its id finds it; behind it the runs stored
    before keep their order, and the oldest of them are dropped only when
    the whole list met [QuotaExceededError], in which case 50 runs are
    kept.  When [saveRun] throws, both writes have failed, the first with
    [QuotaExceededError], and storage is as it was. *)
Theorem saveRun_puts_newest_first_and_trims_oldest :
  forall (run : Storage.Run) (i : Item),
    let o := saveRun setItem run i in
    (threw o = false ->
     (setItem (run :: getRuns i) = OtherError /\ item o = i) \/
     ((exists kept dropped,
         getRuns i = kept ++ dropped /\
         getRuns (item o) = run :: kept /\
         setItem (run :: kept) = Written /\
         (dropped <> [] ->
          setItem (run :: getRuns i) = QuotaExceededError /\
          length (run :: kept) = 50%nat)) /\
      (forall id, Storage.id run = Some id -> getRunById id (item o) = Some run))) /\
    (threw o = true ->
     item o = i /\
     setItem (run :: getRuns i) = QuotaExceededError /\
     setItem (firstn 50 (run :: getRuns i)) <> Written).
Proof.
  intros run i o. subst o. unfold saveRun.
  destruct (setItem (run :: getRuns i)) eqn:Hfull.
  - cbn [threw item getRuns]. split; [intros _ | discriminate]. right. split.
    + exists (getRuns i), []. rewrite app_nil_r.
      split; [reflexivity |]. split; [reflexivity |]. split; [exact Hfull |].
      intros Hne. congruence.
    + intros id Hid. unfold getRunById. cbn [getRuns find].
      replace (hasId id run) with true by (symmetry; now apply hasId_true).
      reflexivity.
  - destruct (setItem (firstn 50 (run :: getRuns i))) eqn:Htrim.
    + cbn [threw item getRuns]. split; [intros _ | discriminate]. right. split.
      * exists (firstn 49 (getRuns i)), (skipn 49 (getRuns i)).
        rewrite firstn_skipn.
        change (firstn 50 (run :: getRuns i)) with (run :: firstn 49 (getRuns i)) in *.
        split; [reflexivity |]. split; [reflexivity |]. split; [exact Htrim |].
        intros Hdropped. split; [reflexivity |]. cbn [length]. rewrite length_firstn.
        destruct (Nat.le_gt_cases 49 (length (getRuns i))) as [Hlong | Hshort]; [lia |].
        rewrite skipn_all2 in Hdropped by lia. congruence.
      * intros id Hid. unfold getRunById.
        change (firstn 50 (run :: getRuns i)) with (run :: firstn 49 (getRuns i)).
        cbn [getRuns find].
        replace (hasId id run) with true by (symmetry; now apply hasId_true).
        reflexivity.
    + cbn [threw item]. split; [discriminate | intros _].
      split; [reflexivity |]. split; [reflexivity | discriminate].
    + cbn [threw item]. split; [discriminate | intros _].
      split; [reflexivity |]. split; [reflexivity | discriminate].
  - cbn [threw item]. split; [intros _ | discriminate]. left. auto.
Qed.

(** X16. A [deleteRun] that does not throw leaves no run of that id, leaves
    the lookup of every other id as it was, and leaves the list of runs as
    it was when no run had that id.  A [deleteRun] that throws leaves
    storage as it was. *)
Theorem deleteRun_removes_that_id_only :
  forall (id : string) (i : Item),
    let o := deleteRun setItem id i in
    (threw o = false ->
     getRunById id (item o) = None /\
     (forall id', id' <> id -> getRunById id' (item o) = getRunById id' i) /\
     (getRunById id i = None -> getRuns (item o) = getRuns i)) /\
    (threw o = true -> item o = i).
Proof.
  intros id i o. subst o. unfold deleteRun.
  destruct (setItem _); cbn [threw item].
  - split; [intros _ | discriminate].
    unfold getRunById. cbn [getRuns]. split; [| split].
    + apply find_filter_none.
    + intros id' Hne. apply find_filter_same.
      intros r Hr. now rewrite (hasId_other id id' r Hne Hr).
    + apply filter_none_same.
  - split; [discriminate | reflexivity].
  - split; [discriminate | reflexivity].
Qed.

(** X17. When [saveRun] does not throw, or is not called, [finishRun] on
    [localStorage] does what [finishRun] does.  When [saveRun] throws,
    [finishRun] has ended the subscription and nothing else: the state is
    still running or paused, the session variables are not reset, and
    storage is as it was. *)
Theorem finishRun_stops_short_when_storage_throws :
  forall (v : Variant) (w : World) (i : Item) (now endNow : Z),
    let w' := fst (finishRunOnStore setItem v w i now endNow) in
    let o := snd (finishRunOnStore setItem v w i now endNow) in
    (threw o = false -> w' = finishRun v w now endNow) /\
    (threw o = true ->
     item o = i /\
     w' = stopWatching w /\
     getState w' = getState w /\
     getState w' <> stopped /\
     watchId (tracker w') = None).
Proof.
  intros v w i now endNow w' o. subst w' o.
  unfold finishRunOnStore, finishRun.
  destruct (state (tracker w)) eqn:Hstate.
  - cbn [fst snd threw]. split; [reflexivity | discriminate].
  - destruct (hasActualData _ _ _ _).
    + destruct (threw (saveRun setItem _ i)) eqn:Hthrew; cbn [fst snd].
      * rewrite Hthrew. split; [discriminate | intros _].
        split; [exact (saveRun_threw_unchanged _ i Hthrew) |].
        split; [reflexivity |].
        unfold getState. rewrite stopWatching_state, Hstate.
        split; [reflexivity |]. split; [discriminate | apply stopWatching_watchId].
      * rewrite Hthrew. split; [reflexivity | discriminate].
    + cbn [fst snd threw]. split; [reflexivity | discriminate].
  - destruct (hasActualData _ _ _ _).
    + destruct (threw (saveRun setItem _ i)) eqn:Hthrew; cbn [fst snd].
      * rewrite Hthrew. split; [discriminate | intros _].
        split; [exact (saveRun_threw_unchanged _ i Hthrew) |].
        split; [reflexivity |].
        unfold getState. rewrite stopWatching_state, Hstate.
        split; [reflexivity |]. split; [discriminate | apply stopWatching_watchId].
      * rewrite Hthrew. split; [reflexivity | discriminate].
    + cbn [fst snd threw]. split; [reflexivity | discriminate].
Qed.

End LocalStoreFacts.

(** * Properties of the markers of the active route *)

Section MarkerFacts.
Local Open Scope R_scope.

Lemma last_app_one (A : Type) (l : list A) (x d : A) : last (l ++ [x]) d = x.
Proof. apply last_last. Qed.

Lemma addCoordinate_markers (lng lat : R) (m : Markers.t) :
  markers_match m -> markers_match (Markers.addCoordinate lng lat m).
Proof.
  destruct m as [[mp rd hrd] sm cm].
  unfold markers_match, Markers.addCoordinate.
  cbn [Markers.view Markers.startMarker Markers.currentMarker
       MapView.map MapView.routeData MapView.historyRouteData].
  destruct mp; cbn [negb]; [| trivial].
  destruct rd as [| first rest].
  - intros _. cbn. auto.
  - intros [-> ->].
    cbn [Markers.view Markers.startMarker Markers.currentMarker
         MapView.map MapView.routeData MapView.historyRouteData].
    change ((first :: rest) ++ [(lng, lat)]) with (first :: (rest ++ [(lng, lat)])).
    split; [reflexivity |].
    change (first :: rest ++ [(lng, lat)]) with ((first :: rest) ++ [(lng, lat)]).
    now rewrite last_app_one.
Qed.

Lemma call_markers (m : Markers.t) (c : Markers.Call) :
  markers_match m -> markers_match (Markers.call m c).
Proof.
  destruct c; cbn [Markers.call].
  - destruct m as [[mp rd hrd] sm cm]. unfold markers_match. cbn. trivial.
  - apply addCoordinate_markers.
  - intros _. unfold markers_match. cbn. auto.
  - destruct m as [[mp rd hrd] sm cm].
    unfold markers_match, Markers.showHistoryRoute, MapView.showHistoryRoute.
    cbn [Markers.view Markers.startMarker Markers.currentMarker
         MapView.map MapView.routeData MapView.historyRouteData].
    destruct (negb mp || _); trivial.
  - destruct m as [[mp rd hrd] sm cm].
    unfold markers_match, Markers.clearHistoryRoute.
    cbn [Markers.view Markers.startMarker Markers.currentMarker
         MapView.map MapView.routeData MapView.historyRouteData].
    destruct (negb mp); trivial.
Qed.

(** X18. After every sequence of calls into the map module ([initMap],
    [addCoordinate], [clearRoute], [showHistoryRoute], [clearHistoryRoute])
    the start marker stands at the first coordinate of the active route and
    the current marker at its last coordinate, and there is no marker when
    the route is empty. *)
Theorem markers_stand_at_both_ends_of_the_route :
  forall calls : list Markers.Call,
    markers_match (fold_left Markers.call calls Markers.initial).
Proof.
  intros calls.
  assert (Hgen : forall m, markers_match m ->
                           markers_match (fold_left Markers.call calls m)).
  { induction calls as [| c calls IH]; intros m Hm; cbn [fold_left]; [exact Hm |].
    apply IH. now apply call_markers. }
  apply Hgen. unfold markers_match. cbn. auto.
Qed.

(** The route part of [Markers.addCoordinate] is [MapView.addCoordinate] of
    [map.ts]. *)
Lemma markers_addCoordinate_view (lng lat : R) (m : Markers.t) :
  Some (Markers.view (Markers.addCoordinate lng lat m)) =
  MapView.addCoordinate TS lng lat (Markers.view m).
Proof.
  destruct m as [[mp rd hrd] sm cm].
  unfold Markers.addCoordinate, MapView.addCoordinate.
  cbn [Markers.view Markers.startMarker Markers.currentMarker
       MapView.map MapView.routeData MapView.historyRouteData].
  destruct mp; cbn [negb]; [| reflexivity].
  destruct rd; [reflexivity |]. destruct cm; reflexivity.
Qed.

End MarkerFacts.

(** * Properties of the run ids *)

Section RunIdNames.
Local Open Scope string_scope.

Lemma uint_no_underscore (d : Decimal.uint) :
  occurs "_" (NilEmpty.string_of_uint d) = false.
Proof. induction d; cbn [NilEmpty.string_of_uint occurs]; try rewrite IHd; reflexivity. Qed.

Lemma toString_no_underscore (n : Z) : occurs "_" (Units.toString n) = false.
Proof.
  unfold Units.toString, NilZero.string_of_int, NilZero.string_of_uint.
  destruct (Z.to_int n) as [d | d]; destruct d; try reflexivity;
    cbn [occurs]; rewrite ?uint_no_underscore;
    try (change (NilEmpty.string_of_uint (?c ?d)) with (String _ (NilEmpty.string_of_uint d)));
    cbn [NilEmpty.string_of_uint occurs]; rewrite ?uint_no_underscore; reflexivity.
Qed.

Lemma to_int_not_nil (n : Z) :
  Z.to_int n <> Decimal.Pos Decimal.Nil /\ Z.to_int n <> Decimal.Neg Decimal.Nil.
Proof.
  pose proof (DecimalZ.to_of (Z.to_int n)) as Hnorm.
  rewrite DecimalZ.of_to in Hnorm.
  split; intros Heq; rewrite Heq in Hnorm; discriminate Hnorm.
Qed.

Lemma toString_inj (n n' : Z) : Units.toString n = Units.toString n' -> n = n'.
Proof.
  unfold Units.toString. intros Heq.
  apply (f_equal NilZero.int_of_string) in Heq.
  destruct (to_int_not_nil n) as [Hp Hn].
  destruct (to_int_not_nil n') as [Hp' Hn'].
  rewrite !NilZero.isi in Heq by assumption.
  injection Heq as Heq. now apply DecimalZ.to_int_inj.
Qed.

Lemma split_at_underscore (s1 s2 t1 t2 : string) :
  occurs "_" s1 = false -> occurs "_" s2 = false ->
  s1 ++ String "_" t1 = s2 ++ String "_" t2 ->
  s1 = s2 /\ t1 = t2.
Proof.
  revert s2. induction s1 as [| a s1 IH]; intros s2 H1 H2 Heq.
  - destruct s2 as [| b s2].
    + cbn in Heq. injection Heq as ->. auto.
    + cbn in Heq. injection Heq as <- _.
      cbn [occurs] in H2. rewrite Ascii.eqb_refl in H2. discriminate.
  - destruct s2 as [| b s2].
    + cbn in Heq. injection Heq as -> _.
      cbn [occurs] in H1. rewrite Ascii.eqb_refl in H1. discriminate.
    + cbn in Heq. injection Heq as -> Heq.
      cbn [occurs] in H1, H2.
      apply orb_false_iff in H1. apply orb_false_iff in H2.
      destruct (IH s2) as [-> ->]; tauto.
Qed.

(** X19. Two run ids are the same only when they were made from the same
    clock reading and the same random suffix. *)
Theorem generateId_is_injective :
  forall (now now' : Z) (rnd rnd' : string),
    Storage.generateId now rnd = Storage.generateId now' rnd' <->
    now = now' /\ rnd = rnd'.
Proof.
  intros now now' rnd rnd'. split.
  - unfold Storage.generateId.
    fold (Units.toString now). fold (Units.toString now').
    intros Heq.
    cbn [append] in Heq.
    injection Heq as Heq.
    apply split_at_underscore in Heq; try apply toString_no_underscore.
    destruct Heq as [Hnow Hrnd]. split; [now apply toString_inj | exact Hrnd].
  - intros [-> ->]. reflexivity.
Qed.

End RunIdNames.

(** * Properties of the tracker as the app drives it *)

Section AppFacts.

(** X20. When the tracker is started and paused through [handlePlayPause]
    only, after every sequence of operations at most one subscription is
    active, the one whose handle the tracker holds, and none is active
    while paused or stopped.  While running exactly one is active, unless a
    finish has ended it and then stopped short in [saveRun]. *)
Theorem play_pause_button_keeps_one_subscription :
  forall (v : Variant) (supported : bool) (history : list Storage.Run) (ops : list Op),
    Forall no_direct_start ops ->
    let w := run v ops (initial supported history) in
    at_most_one_subscription w /\
    (Forall save_returns ops -> one_subscription w).
Proof.
  intros v supported history ops Hops w.
  pose proof (no_direct_start_guarded v ops (initial supported history) Hops) as Hguard.
  split.
  - apply guarded_run_at_most; [exact Hguard | apply initial_at_most].
  - intros Hsave. apply guarded_run_one_subscription; [exact Hguard | exact Hsave |].
    unfold one_subscription. cbn. auto.
Qed.

Lemma play_pause_button_keeps_one_subscription_witness :
  Forall no_direct_start
    [PlayPause 1000 "k3x9" 1000; FinishStorageFull 5000 5000;
     PlayPause 1000 "k3x9" 9000] /\
  at_most_one_subscription
    (run TS [PlayPause 1000 "k3x9" 1000; FinishStorageFull 5000 5000;
             PlayPause 1000 "k3x9" 9000]
         (initial true [])).
Proof.
  assert (H : Forall no_direct_start
                [PlayPause 1000 "k3x9" 1000; FinishStorageFull 5000 5000;
                 PlayPause 1000 "k3x9" 9000])
    by (repeat constructor).
  split; [exact H |].
  exact (proj1 (play_pause_button_keeps_one_subscription TS true [] _ H)).
Defined.

(** X21. When [startTracking] is not called directly while running, a fix
    that arrives while the tracker is paused or stopped changes nothing,
    whatever subscription it comes from. *)
Theorem fix_while_not_running_is_dropped :
  forall (v : Variant) (supported : bool) (history : list Storage.Run) (ops : list Op),
    start_guarded v ops (initial supported history) ->
    let w := run v ops (initial supported history) in
    getState w <> running ->
    forall (watch : nat) (position : Geolocation.Coords),
      deliver v w watch position = w.
Proof.
  intros v supported history ops Hguard w Hstate watch position.
  assert (Hone : at_most_one_subscription w).
  { apply guarded_run_at_most; [exact Hguard | apply initial_at_most]. }
  unfold getState in Hstate. unfold deliver.
  destruct (existsb _ _) eqn:Hactive; [| reflexivity].
  elim Hstate. exact (at_most_one_active w watch Hone Hactive).
Qed.

Lemma fix_while_not_running_is_dropped_witness :
  start_guarded TS [PlayPause 1000 "k3x9" 1000; Pause 5000] (initial true []) /\
  getState (run TS [PlayPause 1000 "k3x9" 1000; Pause 5000] (initial true [])) <> running /\
  deliver TS (run TS [PlayPause 1000 "k3x9" 1000; Pause 5000] (initial true []))
          1 alexanderplatz =
  run TS [PlayPause 1000 "k3x9" 1000; Pause 5000] (initial true []).
Proof.
  assert (H1 : start_guarded TS [PlayPause 1000 "k3x9" 1000; Pause 5000] (initial true []))
    by (cbn; auto).
  assert (H2 : getState (run TS [PlayPause 1000 "k3x9" 1000; Pause 5000] (initial true []))
               <> running) by (cbn; discriminate).
  split; [exact H1 |]. split; [exact H2 |].
  exact (fix_while_not_running_is_dropped TS true [] _ H1 H2 1%nat alexanderplatz).
Defined.

End AppFacts.
